(** * WebGIS Populasi: the Flask handler of [app.py] and its table filters

    A shallow embedding of [src/app.py]: the module-level load of the CSV,
    the three filters of [home], and [build_map].

    Conventions of the embedding.
    - A pandas float cell is [option number]: [None] is NaN (a missing
      value), a number is one of the two infinities or a finite value, given
      as the rational it is.  No definition of the program rounds: the
      places where float64 arithmetic does (the mean of a column, the
      conversion of an integer for a comparison, the reading of a text as a
      number) are functions of the runtime.
    - A DataFrame is the list of its rows, each row holding the four columns
      the program reads.  A value of the [nama] column is given by the text
      [str] makes of it, or is missing.
    - DataFrames are objects: the program state is a heap of frames, the
      global name [df] is a reference into it, and every pandas call that
      returns a frame allocates a new object.
    - The Python library functions whose exact behaviour depends on the
      interpreter or on the pandas release ([int], [re], [str.casefold],
      [astype(str)] on a missing value, [pd.read_csv], [pd.to_numeric],
      [Series.mean], the comparison of a column with an integer) are the
      fields of the class [Runtime]; the theorems hold for every runtime.
      [ascii_runtime] is an instance used to evaluate the program on
      concrete inputs; each of its functions says in its comment on which
      inputs it agrees with the library. *)

From Stdlib Require Import List String Ascii ZArith QArith Bool Arith Lia.
From Stdlib Require Import Permutation DecimalString.
Import ListNotations.

Local Close Scope Q_scope.
Local Open Scope string_scope.
Local Open Scope list_scope.

(* ================================================================== *)
(** ** Data model *)

(** A float that is not NaN. *)
Inductive number := NegInf | Finite (q : Q) | PosInf.

(** A pandas float cell: [None] is NaN. *)
Definition float := option number.

(** [a <= b] on floats that are not NaN. *)
Definition number_le (a b : number) : bool :=
  match a, b with
  | NegInf, _ => true
  | _, PosInf => true
  | Finite x, Finite y => Qle_bool x y
  | _, _ => false
  end.

Definition notna {A : Type} (x : option A) : bool :=
  match x with Some _ => true | None => false end.

Record row := mkRow {
  nama : option string;
  lat : float;
  lon : float;
  populasi : float
}.

Definition DataFrame := list row.

(** A column taken out of a frame ([dframe["lat"]]). *)
Definition Series (A : Type) := list (option A).

Inductive exn :=
| ValueError
| KeyError (key : string)
| ReError
| OverflowError
| FileNotFoundError
| EmptyDataError
| ParserError.

(** [isinstance(e, ValueError)]: the two errors of the CSV parser are
    subclasses of [ValueError]. *)
Definition exn_is_ValueError (e : exn) : bool :=
  match e with ValueError | EmptyDataError | ParserError => true | _ => false end.

(** The table [pd.read_csv] returns: the columns in file order, each with
    its values; a value is given by the text [str] makes of it, [None] is a
    missing value. *)
Definition csv_table := list (string * list (option string)).

(** The library functions the program calls on text. *)
Class Runtime := {
  (** [int(s)]: [None] stands for [ValueError]. *)
  py_int : string -> option Z;
  (** [re.compile(pat, re.IGNORECASE).search], as [Series.str.contains(pat,
      case=False)] uses it with its default [regex=True]: [None] stands for
      the error raised on a pattern that does not compile. *)
  re_search_ignorecase : string -> option (string -> bool);
  (** [str.casefold]. *)
  casefold : string -> string;
  (** [str.lower]. *)
  lower : string -> string;
  (** What [astype(str)] makes of a missing value: [Some "nan"] up to
      pandas 2, [None] (it stays missing) from pandas 3. *)
  astype_str_na : option string;
  (** [pd.read_csv(path)] on the content of the file, [None] when there is
      no file. *)
  read_csv : option string -> exn + csv_table;
  (** [pd.to_numeric(_, errors="coerce")] on one value of the table. *)
  to_numeric : string -> float;
  (** [Series.mean()] on the values of a column that are not missing. *)
  series_mean : list number -> float;
  (** The value a column is compared with in [series >= n]: [n] itself for
      a column of integers, [n] rounded to float64 for a column of floats.
      The comparison is taken to return for every integer: an infinity
      stands for an integer beyond the float64 range, which no finite value
      of the column reaches. *)
  operand_of_int : Z -> number;
  (** The conversion keeps the order of the integers. *)
  operand_of_int_mono :
    forall n m : Z, (n <= m)%Z ->
    number_le (operand_of_int n) (operand_of_int m) = true
}.

(* ================================================================== *)
(** ** Program state: a heap of DataFrame objects and the module globals *)

Definition ref := nat.

Record world := mkWorld {
  heap : list DataFrame;
  df : ref;
  NAMES : list string
}.

(** The frame a reference points to. *)
Definition frame (w : world) (r : ref) : DataFrame := nth r (heap w) [].

(** Computations of the handler: they read and extend the heap and either
    return a value or raise. *)
Definition M (A : Type) : Type := world -> (exn + A) * world.

Definition ret {A : Type} (a : A) : M A := fun w => (inr a, w).

Definition raise {A : Type} (e : exn) : M A := fun w => (inl e, w).

Definition bind {A B : Type} (m : M A) (k : A -> M B) : M B :=
  fun w =>
    match m w with
    | (inr a, w') => k a w'
    | (inl e, w') => (inl e, w')
    end.

(** [try: body except <handled>: handler]. *)
Definition try_except {A : Type} (body : M A) (handled : exn -> bool)
    (handler : M A) : M A :=
  fun w =>
    match body w with
    | (inr a, w') => (inr a, w')
    | (inl e, w') => if handled e then handler w' else (inl e, w')
    end.

Declare Scope py_scope.
Delimit Scope py_scope with py.
Notation "x <- m ;; k" := (bind m (fun x => k))
  (at level 100, m at next level, right associativity) : py_scope.
Notation "' p <- m ;; k" := (bind m (fun x => let p := x in k))
  (at level 100, p pattern, m at next level, right associativity) : py_scope.
Local Open Scope py_scope.

Definition deref (r : ref) : M DataFrame := fun w => (inr (frame w r), w).

Definition alloc (t : DataFrame) : M ref :=
  fun w => (inr (List.length (heap w)),
            mkWorld (heap w ++ [t]) (df w) (NAMES w)).

Definition global_df : M ref := fun w => (inr (df w), w).

Definition global_NAMES : M (list string) := fun w => (inr (NAMES w), w).

(* ================================================================== *)
(** ** The pandas calls of the program *)

(** [frame.copy()]: a new object with the same rows. *)
Definition copy (r : ref) : M ref :=
  t <- deref r ;; alloc t.

(** [frame["nama"]], [frame["lat"]], ...: the column as a Series. *)
Definition column {A : Type} (r : ref) (field : row -> option A) : M (Series A) :=
  t <- deref r ;; ret (map field t).

(** Rows of [t] at the positions where the boolean Series [mask] holds. *)
Fixpoint select (mask : list bool) (t : DataFrame) : DataFrame :=
  match mask, t with
  | b :: mask', r :: t' => if b then r :: select mask' t' else select mask' t'
  | _, _ => []
  end.

(** [frame[mask]]: a new object with the selected rows. *)
Definition getitem (r : ref) (mask : list bool) : M ref :=
  t <- deref r ;; alloc (select mask t).

(** [series.notna().any()]. *)
Definition notna_any {A : Type} (s : Series A) : bool := existsb notna s.

(** The values of a Series that are not missing. *)
Fixpoint present {A : Type} (s : Series A) : list A :=
  match s with
  | [] => []
  | Some v :: s' => v :: present s'
  | None :: s' => present s'
  end.

Section WithRuntime.
Context {rt : Runtime}.

(** [series >= n] against an integer: NaN compares false. *)
Definition series_ge (s : Series number) (n : Z) : list bool :=
  map (fun x => match x with
                | Some v => number_le (operand_of_int n) v
                | None => false
                end) s.

(** [series.mean()]: missing values are skipped. *)
Definition mean (s : Series number) : float := series_mean (present s).

(** [series.astype(str)]. *)
Definition astype_str (s : Series string) : Series string :=
  map (fun x => match x with Some v => Some v | None => astype_str_na end) s.

(** [series.str.contains(pat, case=False, na=False)]. *)
Definition str_contains (s : Series string) (pat : string) : M (list bool) :=
  match re_search_ignorecase pat with
  | None => raise ReError
  | Some search =>
      ret (map (fun x => match x with Some v => search v | None => false end) s)
  end.

(** [series.str.casefold()]. *)
Definition str_casefold (s : Series string) : Series string :=
  map (option_map casefold) s.

(** [series == text]: a missing value compares false. *)
Definition series_eq (s : Series string) (x : string) : list bool :=
  map (fun v => match v with Some u => String.eqb u x | None => false end) s.

(** [int(s)] inside the handler. *)
Definition int_ (s : string) : M Z :=
  match py_int s with Some n => ret n | None => raise ValueError end.

End WithRuntime.

(** [frame.dropna(subset=["lat", "lon"])]: a new object without the rows
    that miss one of the two. *)
Definition dropna_lat_lon (r : ref) : M ref :=
  t <- deref r ;; alloc (filter (fun x => notna (lat x) && notna (lon x)) t).

(* ================================================================== *)
(** ** The folium map *)

Record Marker := mkMarker {
  marker_location : float * float;
  popup : string;
  tooltip : option string
}.

(** What is added to a map.  [DefaultTiles] is the tile layer [folium.Map]
    makes of its own [tiles] argument, which the program leaves at its
    default.  The legend is kept without its HTML text. *)
Inductive element :=
| DefaultTiles
| TileLayer (tiles name : string) (attr subdomains : option string)
    (max_zoom : option Z) (control : bool)
| MiniMap (toggle_display : bool) (position : string)
| Fullscreen (position : string)
| MarkerCluster (name : string) (markers : list Marker)
| LayerControl (collapsed : bool)
| Legend.

Record Map := mkMap {
  location : float * float;
  zoom_start : Z;
  control_scale : bool;
  children : list element
}.

Definition add_child (e : element) (m : Map) : Map :=
  mkMap (location m) (zoom_start m) (control_scale m) (children m ++ [e]).

(** The double quote of the attribution texts. *)
Definition dq : string := String (ascii_of_nat 34) "".

Definition anchor (href text : string) : string :=
  ("<a href=" ++ dq ++ href ++ dq ++ ">" ++ text ++ "</a>")%string.

Definition osm_link : string :=
  anchor "https://www.openstreetmap.org/copyright" "OpenStreetMap".

Definition carto_attr : string :=
  ("&copy; " ++ osm_link ++ " contributors &copy; "
   ++ anchor "https://carto.com/attributions" "CARTO")%string.

Definition opentopo_attr : string :=
  ("Map data: &copy; " ++ osm_link ++ " contributors, "
   ++ anchor "http://viewfinderpanoramas.org" "SRTM" ++ " | Style: &copy; "
   ++ anchor "https://opentopomap.org" "OpenTopoMap")%string.

Definition add_base_layers (m : Map) : Map :=
  let m := add_child (TileLayer "OpenStreetMap" "OpenStreetMap" None None None true) m in
  let m := add_child (TileLayer
    "https://{s}.basemaps.cartocdn.com/light_all/{z}/{x}/{y}{r}.png"
    "CartoDB Positron" (Some carto_attr) (Some "abcd") (Some 20%Z) true) m in
  let m := add_child (TileLayer
    "https://{s}.basemaps.cartocdn.com/dark_all/{z}/{x}/{y}{r}.png"
    "CartoDB Dark" (Some carto_attr) (Some "abcd") (Some 20%Z) true) m in
  let m := add_child (TileLayer
    "https://{s}.tile.opentopomap.org/{z}/{x}/{y}.png"
    "OpenTopoMap" (Some opentopo_attr) (Some "abc") (Some 17%Z) true) m in
  let m := add_child (TileLayer
    "https://server.arcgisonline.com/ArcGIS/rest/services/World_Imagery/MapServer/tile/{z}/{y}/{x}"
    "ESRI World Imagery" (Some "Tiles &copy; Esri") None (Some 19%Z) true) m in
  add_child (TileLayer
    "https://server.arcgisonline.com/ArcGIS/rest/services/World_Topo_Map/MapServer/tile/{z}/{y}/{x}"
    "ESRI World Topo" (Some "Tiles &copy; Esri") None (Some 19%Z) true) m.

Definition add_legend (m : Map) : Map := add_child Legend m.

(** [m._repr_html_()]: the HTML of a map, kept as the map it renders. *)
Inductive html := repr_html (m : Map).

(** [int(x)] on a float that is not NaN: truncation towards zero, and
    [OverflowError] on an infinity. *)
Definition int_of_float (x : number) : exn + Z :=
  match x with
  | Finite q => inr (Z.quot (Qnum q) (Zpos (Qden q)))
  | NegInf | PosInf => inl OverflowError
  end.

(** Digits with a comma every three, on the reversed digit list. *)
Fixpoint group_rev (ds : list ascii) (k : nat) : list ascii :=
  match ds with
  | [] => []
  | d :: ds' =>
      if (k =? 3)%nat then ","%char :: d :: group_rev ds' 1
      else d :: group_rev ds' (S k)
  end.

(** [f"{n:,}"]. *)
Definition format_thousands (n : Z) : string :=
  let ds := list_ascii_of_string (NilZero.string_of_uint (N.to_uint (Z.abs_N n))) in
  let body := string_of_list_ascii (rev (group_rev (rev ds) 0)) in
  if (n <? 0)%Z then ("-" ++ body)%string else body.

(** [f"{row['nama']}"]: a missing value prints as nan. *)
Definition str_of_nama (x : option string) : string :=
  match x with Some s => s | None => "nan" end.

(** Lines 145-148: the text of the popup of a row. *)
Definition popup_text (r : row) : exn + string :=
  match populasi r with
  | Some p =>
      match int_of_float p with
      | inr n =>
          inr (str_of_nama (nama r) ++ "<br>Populasi: " ++ format_thousands n)%string
      | inl e => inl e
      end
  | None => inr (str_of_nama (nama r))
  end.

(** One turn of the loop of [build_map]: a marker is added to the cluster
    and the count goes up by one. *)
Definition place_marker (acc : list Marker * nat) (r : row) : M (list Marker * nat) :=
  let (cluster, count) := acc in
  match popup_text r with
  | inr text => ret (cluster ++ [mkMarker (lat r, lon r) text (nama r)], S count)
  | inl e => raise e
  end.

(** The loop of lines 144-154 over the rows that [iterrows] yields. *)
Fixpoint place_markers (rows : list row) (acc : list Marker * nat)
  : M (list Marker * nat) :=
  match rows with
  | [] => ret acc
  | r :: rest => acc' <- place_marker acc r ;; place_markers rest acc'
  end.

Definition fallback_center : float * float :=
  (Some (Finite (-65 # 10)), Some (Finite (107 # 1))).

(** [folium.Map(location=..., zoom_start=..., control_scale=...)]: a map
    with the default tile layer; a NaN in the location is refused with
    [ValueError]. *)
Definition folium_Map (center : float * float) (zoom : Z) (scale : bool) : M Map :=
  if notna (fst center) && notna (snd center)
  then ret (mkMap center zoom scale [DefaultTiles])
  else raise ValueError.

(** [build_map(dframe)]: the pair (map_html, result_count).  The cluster is
    a child of the map from line 142 on and receives its markers afterwards;
    here it is added, at the same place among the children, once the loop
    has filled it. *)
Definition build_map {rt : Runtime} (dframe : ref) : M (html * nat) :=
  t <- deref dframe ;;
  lats <- column dframe lat ;;
  lons <- column dframe lon ;;
  let center :=
    if (0 <? List.length t)%nat && notna_any lats && notna_any lons
    then (mean lats, mean lons)
    else fallback_center in
  m <- folium_Map center 8 true ;;
  let m := add_base_layers m in
  let m := add_child (MiniMap true "bottomright") m in
  let m := add_child (Fullscreen "topleft") m in
  located <- dropna_lat_lon dframe ;;
  rows <- deref located ;;
  ' (markers, count) <- place_markers rows ([], 0%nat) ;;
  let m := add_child (MarkerCluster "Cluster Lokasi" markers) m in
  let m := add_child (LayerControl false) m in
  let m := add_legend m in
  ret (repr_html m, count).

(* ================================================================== *)
(** ** The route *)

Inductive http_method := GET | POST.

Record Request := mkRequest {
  method : http_method;
  form : list (string * string)
}.

(** [request.form.get(key, default)]: the first value sent under [key]. *)
Fixpoint form_get (f : list (string * string)) (key default : string) : string :=
  match f with
  | [] => default
  | (k, v) :: f' => if String.eqb k key then v else form_get f' key default
  end.

(** [if s:] on a string. *)
Definition truthy (s : string) : bool := negb (String.eqb s "").

(** The keyword arguments of the templating call. *)
Record context := mkContext {
  ctx_map_html : html;
  ctx_min_pop : string;
  ctx_keyword : string;
  ctx_names : list string;
  ctx_selected_name : string;
  ctx_result_count : nat
}.

(** [render_template(name, **context)]: the page, kept as the call that
    renders it. *)
Inductive response := render_template (template : string) (ctx : context).

Section Handler.
Context {rt : Runtime}.

(** Lines 172-177: the minimum-population filter. *)
Definition filter_min_pop (min_pop_str : string) (dff : ref) : M ref :=
  if truthy min_pop_str then
    try_except
      (min_pop <- int_ min_pop_str ;;
       pop <- column dff populasi ;;
       getitem dff (series_ge pop min_pop))
      exn_is_ValueError
      (ret dff)
  else ret dff.

(** Lines 179-180: the keyword filter. *)
Definition filter_keyword (keyword : string) (dff : ref) : M ref :=
  if truthy keyword then
    names <- column dff nama ;;
    mask <- str_contains (astype_str names) keyword ;;
    getitem dff mask
  else ret dff.

(** Lines 182-183: the dropdown filter. *)
Definition filter_name (selected_name : string) (dff : ref) : M ref :=
  if truthy selected_name then
    names <- column dff nama ;;
    getitem dff (series_eq (str_casefold (astype_str names)) (casefold selected_name))
  else ret dff.

(** Lines 170-183: the copy of the global table and the three filters. *)
Definition filtered (min_pop_str keyword selected_name : string) : M ref :=
  d <- global_df ;;
  dff <- copy d ;;
  dff <- filter_min_pop min_pop_str dff ;;
  dff <- filter_keyword keyword dff ;;
  filter_name selected_name dff.

Definition home (request : Request) : M response :=
  let min_pop_str := form_get (form request) "min_pop" "" in
  let keyword := form_get (form request) "keyword" "" in
  let selected_name := form_get (form request) "name" "" in
  dff <- filtered min_pop_str keyword selected_name ;;
  ' (map_html, result_count) <- build_map dff ;;
  names <- global_NAMES ;;
  ret (render_template "home.html"
         (mkContext map_html min_pop_str keyword names selected_name result_count)).

(** The table bound to [dff] when [build_map] is called (line 185). *)
Definition filtered_table (w : world) (request : Request) : exn + DataFrame :=
  match filtered (form_get (form request) "min_pop" "")
                 (form_get (form request) "keyword" "")
                 (form_get (form request) "name" "") w with
  | (inr dff, w') => inr (frame w' dff)
  | (inl e, _) => inl e
  end.

(** What a request gets back: the page, or the error page of the framework
    when the handler raised. *)
Inductive reply := Page (r : response) | InternalServerError (e : exn).

Definition handle (w : world) (request : Request) : reply * world :=
  match home request w with
  | (inr r, w') => (Page r, w')
  | (inl e, w') => (InternalServerError e, w')
  end.

(** The requests of a run of the application, one after the other. *)
Fixpoint serve (w : world) (requests : list Request) : list reply * world :=
  match requests with
  | [] => ([], w)
  | request :: rest =>
      let (r, w') := handle w request in
      let (rs, w'') := serve w' rest in
      (r :: rs, w'')
  end.

End Handler.

(* ================================================================== *)
(** ** Module level: loading the CSV (lines 25-38) *)

Definition columns (csv : csv_table) : list string := map fst csv.

Definition required : list string := ["nama"; "lat"; "lon"; "populasi"].

(** [csv[name]]: [KeyError] when no column has that name. *)
Definition getcol (csv : csv_table) (name : string) : exn + list (option string) :=
  match find (fun c => String.eqb (fst c) name) csv with
  | Some c => inr (snd c)
  | None => inl (KeyError name)
  end.

(** [series.unique()]: the values in order of first appearance. *)
Fixpoint unique (seen l : list string) : list string :=
  match l with
  | [] => []
  | x :: l' =>
      if existsb (String.eqb x) seen then unique seen l'
      else x :: unique (x :: seen) l'
  end.

Fixpoint insert_sorted (x : string) (l : list string) : list string :=
  match l with
  | [] => [x]
  | y :: l' => if String.leb x y then x :: y :: l' else y :: insert_sorted x l'
  end.

(** [sorted(names)]. *)
Definition sorted (l : list string) : list string :=
  fold_right insert_sorted [] l.

(** The rows of a frame given by its four columns. *)
Fixpoint rows_of (names : Series string) (lats lons pops : Series number) : DataFrame :=
  match names, lats, lons, pops with
  | n :: names', a :: lats', o :: lons', p :: pops' =>
      mkRow n a o p :: rows_of names' lats' lons' pops'
  | _, _, _, _ => []
  end.

Section Load.
Context {rt : Runtime}.

(** [pd.to_numeric(series, errors="coerce")] *)
Definition to_numeric_series (s : list (option string)) : Series number :=
  map (fun x => match x with Some v => to_numeric v | None => None end) s.

(** [required - set(df.columns.str.lower())] *)
Definition missing (csv : csv_table) : list string :=
  filter (fun c => negb (existsb (String.eqb c) (map lower (columns csv)))) required.

(** Lines 27-38, the module body once [read_csv] has returned the table:
    the world the handler starts from, or the exception that stops the
    import. *)
Definition load (csv : csv_table) : exn + world :=
  match missing csv with
  | _ :: _ => inl ValueError
  | [] =>
      match getcol csv "lat" with
      | inl e => inl e
      | inr lat_col =>
      match getcol csv "lon" with
      | inl e => inl e
      | inr lon_col =>
      match getcol csv "populasi" with
      | inl e => inl e
      | inr pop_col =>
      match getcol csv "nama" with
      | inl e => inl e
      | inr nama_col =>
          inr (mkWorld
                 [rows_of nama_col (to_numeric_series lat_col)
                    (to_numeric_series lon_col) (to_numeric_series pop_col)]
                 0
                 (sorted (unique [] (present nama_col))))
      end end end end
  end.

(** Lines 25-38: the file is read, then the table is checked and coerced.
    An error of [read_csv] stops the import as well. *)
Definition import_module (file : option string) : exn + world :=
  match read_csv file with
  | inl e => inl e
  | inr csv => load csv
  end.

End Load.

(* ================================================================== *)
(** ** A runtime for plain ASCII text *)

Definition in_range (lo hi : nat) (c : ascii) : bool :=
  let n := nat_of_ascii c in (lo <=? n)%nat && (n <=? hi)%nat.

Definition is_digit (c : ascii) : bool := in_range 48 57 c.

Definition is_alnum (c : ascii) : bool :=
  is_digit c || in_range 65 90 c || in_range 97 122 c.

(** The characters [str.strip()] removes. *)
Definition is_space (c : ascii) : bool :=
  in_range 9 13 c || in_range 28 32 c.

Definition lower_ascii (c : ascii) : ascii :=
  if in_range 65 90 c then ascii_of_nat (nat_of_ascii c + 32) else c.

Fixpoint ascii_lower (s : string) : string :=
  match s with
  | EmptyString => EmptyString
  | String c s' => String (lower_ascii c) (ascii_lower s')
  end.

Fixpoint lstrip (l : list ascii) : list ascii :=
  match l with
  | c :: l' => if is_space c then lstrip l' else l
  | [] => []
  end.

Definition strip (l : list ascii) : list ascii := rev (lstrip (rev (lstrip l))).

Definition digit_value (c : ascii) : Z := Z.of_nat (nat_of_ascii c - 48).

Inductive digit_state := NeedDigit | AfterDigit.

(** Decimal digits, single underscores allowed between two digits. *)
Fixpoint digits (l : list ascii) (acc : Z) (st : digit_state) : option Z :=
  match l with
  | [] => match st with AfterDigit => Some acc | NeedDigit => None end
  | c :: l' =>
      if is_digit c then digits l' (acc * 10 + digit_value c)%Z AfterDigit
      else if Ascii.eqb c "_" then
        match st with AfterDigit => digits l' acc NeedDigit | NeedDigit => None end
      else None
  end.

(** The most digits [int] reads (the default of
    [sys.set_int_max_str_digits]). *)
Definition int_max_str_digits : nat := 4300.

(** [int(s)] on ASCII text: surrounding blanks, a sign, decimal digits;
    more than 4300 digits are refused, as Python does from 3.11 on. *)
Definition ascii_int (s : string) : option Z :=
  let l := strip (list_ascii_of_string s) in
  if (int_max_str_digits <? List.length (filter is_digit l))%nat then None
  else
    match l with
    | "-"%char :: l' => option_map Z.opp (digits l' 0 NeedDigit)
    | "+"%char :: l' => digits l' 0 NeedDigit
    | _ => digits l 0 NeedDigit
    end.

(** *** Floats: rounding to float64 *)

Definition pow2 (e : Z) : Q :=
  if (0 <=? e)%Z then inject_Z (2 ^ e) else (1 # Z.to_pos (2 ^ (- e)))%Q.

(** [n / d] rounded to the nearest integer, a tie to the even one. *)
Definition div_nearest_even (n d : Z) : Z :=
  let k := (n / d)%Z in
  let r := (n mod d)%Z in
  if (2 * r <? d)%Z then k
  else if (d <? 2 * r)%Z then (k + 1)%Z
  else if Z.even k then k else (k + 1)%Z.

(** [p / q] over [2 ^ e], as a fraction of integers. *)
Definition scaled (p q : positive) (e : Z) : Z * Z :=
  if (0 <=? e)%Z then (Zpos p, Zpos q * 2 ^ e)%Z
  else (Zpos p * 2 ^ (- e), Zpos q)%Z.

(** The float64 nearest to [p / q]: 53 bits, the exponent of the last bit
    not below -1074, an infinity from [2 ^ 1024] on. *)
Definition float64_of_positive (p q : positive) : number :=
  let e1 := (Z.log2 (Zpos p) - Z.log2 (Zpos q) - 52)%Z in
  let e2 := if (fst (scaled p q e1) / snd (scaled p q e1) <? 2 ^ 52)%Z
            then (e1 - 1)%Z else e1 in
  let e := Z.max e2 (-1074) in
  let m := div_nearest_even (fst (scaled p q e)) (snd (scaled p q e)) in
  if (1024 <=? Z.log2 m + e)%Z then PosInf
  else Finite (Qred (inject_Z m * pow2 e)).

Definition number_opp (x : number) : number :=
  match x with
  | NegInf => PosInf
  | Finite q => Finite (Qopp q)
  | PosInf => NegInf
  end.

Definition float64_of_Q (x : Q) : number :=
  match Qnum x with
  | Z0 => Finite 0
  | Zpos p => float64_of_positive p (Qden x)
  | Zneg p => number_opp (float64_of_positive p (Qden x))
  end.

(** A natural number of 54 bits or more cut to 53 bits: the nearest
    multiple of [2 ^ e], a tie to the even one. *)
Definition round_to_multiple (n e : Z) : Z :=
  (div_nearest_even n (2 ^ e) * 2 ^ e)%Z.

Definition float64_of_natural (n : Z) : Z :=
  if (n <? 2 ^ 53)%Z then n else round_to_multiple n (Z.log2 n - 52).

(** A Python integer as float64. *)
Definition float64_of_int (n : Z) : number :=
  let v := float64_of_natural (Z.abs n) in
  if (2 ^ 1024 <=? v)%Z then (if (n <? 0)%Z then NegInf else PosInf)
  else Finite (inject_Z (Z.sgn n * v)).

(** Float64 addition and division by a count. *)
Definition float_add (a b : float) : float :=
  match a, b with
  | Some (Finite x), Some (Finite y) => Some (float64_of_Q (x + y))
  | Some PosInf, Some NegInf | Some NegInf, Some PosInf => None
  | Some PosInf, Some _ | Some _, Some PosInf => Some PosInf
  | Some NegInf, Some _ | Some _, Some NegInf => Some NegInf
  | _, _ => None
  end.

Definition float_div_count (a : float) (n : nat) : float :=
  match a with
  | Some (Finite x) => Some (float64_of_Q (x / inject_Z (Z.of_nat n)))
  | other => other
  end.

(** [Series.mean()] on the present values: their float64 sum, added one
    after the other from the left as numpy does for fewer than eight
    values, over their number. *)
Definition ascii_mean (vs : list number) : float :=
  match vs with
  | [] => None
  | _ :: _ =>
      float_div_count (fold_left float_add (map Some vs) (Some (Finite 0)))
        (List.length vs)
  end.

(** *** Numbers in text *)

(** Digits: their value and how many they are. *)
Fixpoint digits_run (l : list ascii) (acc : Z) (count : nat)
  : Z * nat * list ascii :=
  match l with
  | c :: l' =>
      if is_digit c then digits_run l' (acc * 10 + digit_value c)%Z (S count)
      else (acc, count, l)
  | [] => (acc, count, [])
  end.

(** An exponent part: nothing, or [e], a sign and digits. *)
Definition exponent (l : list ascii) : option Z :=
  match l with
  | [] => Some 0%Z
  | c :: l' =>
      if Ascii.eqb (lower_ascii c) "e" then
        let (neg, l'') :=
          match l' with
          | "-"%char :: r => (true, r)
          | "+"%char :: r => (false, r)
          | _ => (false, l')
          end in
        match digits_run l'' 0 0 with
        | (v, S _, []) => Some (if neg then (- v)%Z else v)
        | _ => None
        end
      else None
  end.

(** Digits with an optional point and an optional exponent, as the exact
    rational they denote. *)
Definition decimal (l : list ascii) : option Q :=
  let '(int_part, n_int, rest) := digits_run l 0 0 in
  let '(mantissa, n_frac, rest') :=
    match rest with
    | "."%char :: r => digits_run r int_part 0
    | _ => (int_part, 0%nat, rest)
    end in
  if (n_int + n_frac =? 0)%nat then None
  else
    match exponent rest' with
    | Some e =>
        let e' := (e - Z.of_nat n_frac)%Z in
        Some (if (0 <=? e')%Z then inject_Z (mantissa * 10 ^ e')
              else (mantissa # Z.to_pos (10 ^ (- e')))%Q)
    | None => None
    end.

Definition unsigned_number (l : list ascii) : float :=
  let word := string_of_list_ascii (map lower_ascii l) in
  if String.eqb word "inf" || String.eqb word "infinity" then Some PosInf
  else option_map float64_of_Q (decimal l).

(** [pd.to_numeric(_, errors="coerce")] on ASCII text: surrounding blanks,
    a sign, then inf, infinity, or decimal digits with an optional point and
    exponent, rounded to float64; any other text is NaN. *)
Definition ascii_to_numeric (s : string) : float :=
  match strip (list_ascii_of_string s) with
  | "-"%char :: l => option_map number_opp (unsigned_number l)
  | "+"%char :: l => unsigned_number l
  | l => unsigned_number l
  end.

(** *** Reading a CSV file *)

Fixpoint split_on_aux (sep : ascii) (s : string) (field : string) : list string :=
  match s with
  | EmptyString => [field]
  | String c s' =>
      if Ascii.eqb c sep then field :: split_on_aux sep s' ""
      else split_on_aux sep s' (field ++ String c "")%string
  end.

(** [s.split(sep)]. *)
Definition split_on (sep : ascii) (s : string) : list string :=
  split_on_aux sep s "".

Definition without_cr (line : string) : string :=
  string_of_list_ascii
    (match rev (list_ascii_of_string line) with
     | c :: l => if Ascii.eqb c (ascii_of_nat 13) then rev l
                 else list_ascii_of_string line
     | [] => []
     end).

(** The texts [read_csv] takes for a missing value. *)
Definition na_values : list string :=
  [""; "#N/A"; "#N/A N/A"; "#NA"; "-1.#IND"; "-1.#QNAN"; "-NaN"; "-nan";
   "1.#IND"; "1.#QNAN"; "<NA>"; "N/A"; "NA"; "NULL"; "NaN"; "None"; "n/a";
   "nan"; "null"].

Definition field_value (f : option string) : option string :=
  match f with
  | Some v => if existsb (String.eqb v) na_values then None else Some v
  | None => None
  end.

Fixpoint columns_of (names : list string) (k : nat) (records : list (list string))
  : csv_table :=
  match names with
  | [] => []
  | name :: names' =>
      (name, map (fun r => field_value (nth_error r k)) records)
      :: columns_of names' (S k) records
  end.

(** [pd.read_csv] on a file of comma-separated ASCII text without quotes:
    the first line that is not empty names the columns; empty lines are
    skipped; a record shorter than expected is filled with missing values,
    a longer one is a [ParserError]; when the first record has more fields
    than the header, its first fields are the index and not columns.
    Values are left as the text of their field, which is the text of the
    value pandas reads unless the column is one of numbers written in
    another way than [str] writes them (007 is read as 7); column names
    are taken to differ. *)
Definition ascii_read_csv (file : option string) : exn + csv_table :=
  match file with
  | None => inl FileNotFoundError
  | Some text =>
      let lines :=
        filter (fun l => negb (String.eqb l ""))
          (map without_cr (split_on (ascii_of_nat 10) text)) in
      match lines with
      | [] => inl EmptyDataError
      | header :: rest =>
          let names := split_on "," header in
          let records := map (split_on ",") rest in
          let leading :=
            match records with
            | r :: _ => (List.length r - List.length names)%nat
            | [] => 0%nat
            end in
          if existsb (fun r => (List.length names + leading <? List.length r)%nat)
               records
          then inl ParserError
          else inr (columns_of names leading records)
      end
  end.

(** *** Regular expressions: the fragment with literals, [.], [*], [+], [?],
    [|], groups and escaped punctuation, matched without regard to case *)

Inductive regex :=
| Void
| Eps
| Chr (c : ascii)
| Dot
| Cat (r1 r2 : regex)
| Alt (r1 r2 : regex)
| Star (r : regex).

Fixpoint nullable (r : regex) : bool :=
  match r with
  | Void | Chr _ | Dot => false
  | Eps | Star _ => true
  | Cat r1 r2 => nullable r1 && nullable r2
  | Alt r1 r2 => nullable r1 || nullable r2
  end.

(** What is left of [r] after reading [c]; letters match in either case and
    the dot matches all but the line feed. *)
Fixpoint deriv (c : ascii) (r : regex) : regex :=
  match r with
  | Void | Eps => Void
  | Chr d => if Ascii.eqb (lower_ascii c) (lower_ascii d) then Eps else Void
  | Dot => if Ascii.eqb c (ascii_of_nat 10) then Void else Eps
  | Cat r1 r2 =>
      if nullable r1 then Alt (Cat (deriv c r1) r2) (deriv c r2)
      else Cat (deriv c r1) r2
  | Alt r1 r2 => Alt (deriv c r1) (deriv c r2)
  | Star r1 => Cat (deriv c r1) (Star r1)
  end.

(** Some prefix of [s] matches [r]. *)
Fixpoint match_prefix (r : regex) (s : string) : bool :=
  nullable r ||
  match s with
  | EmptyString => false
  | String c s' => match_prefix (deriv c r) s'
  end.

(** [pattern.search(s) is not None]: some part of [s] matches [r]. *)
Fixpoint search (r : regex) (s : string) : bool :=
  match_prefix r s ||
  match s with
  | EmptyString => false
  | String _ s' => search r s'
  end.

(** What stands before the next character of a pattern. *)
Inductive last_item := Nothing | OpenParen | Atom | Repeat | LazyRepeat.

(** A group being read: its finished alternatives and, last first, the items
    of the alternative being read. *)
Definition group := (list regex * list regex)%type.

Definition concat_items (items : list regex) : regex :=
  fold_left (fun acc r => Cat r acc) items Eps.

Definition close_group (g : group) : regex :=
  fold_right Alt (concat_items (snd g)) (fst g).

Inductive compiled := Compiled (r : regex) | Invalid | Unsupported.

Record parser := mkParser {
  enclosing : list group;
  current : group;
  last : last_item;
  escaped : bool
}.

Definition push_item (r : regex) (p : parser) : parser :=
  mkParser (enclosing p) (fst (current p), r :: snd (current p)) Atom false.

(** A repetition sign applied to the last item of the current alternative. *)
Definition repeat_last (c : ascii) (p : parser) : parser :=
  match snd (current p) with
  | r :: items =>
      let r' := if Ascii.eqb c "*" then Star r
                else if Ascii.eqb c "+" then Cat r (Star r)
                else Alt r Eps in
      mkParser (enclosing p) (fst (current p), r' :: items) Repeat false
  | [] => p
  end.

Definition is_repeat_sign (c : ascii) : bool :=
  Ascii.eqb c "*" || Ascii.eqb c "+" || Ascii.eqb c "?".

Definition outside_fragment (c : ascii) : bool :=
  Ascii.eqb c "[" || Ascii.eqb c "]" || Ascii.eqb c "{" || Ascii.eqb c "}"
  || Ascii.eqb c "^" || Ascii.eqb c "$".

(** One character of the pattern: the parser after it, or the verdict that
    ends the reading. *)
Definition parse_char (c : ascii) (p : parser) : parser + compiled :=
  if escaped p then
    if is_alnum c then inr Unsupported else inl (push_item (Chr c) p)
  else if Ascii.eqb c "\" then
    inl (mkParser (enclosing p) (current p) (last p) true)
  else if Ascii.eqb c "(" then
    inl (mkParser (current p :: enclosing p) ([], []) OpenParen false)
  else if Ascii.eqb c ")" then
    match enclosing p with
    | [] => inr Invalid
    | g :: gs =>
        inl (mkParser gs (fst g, close_group (current p) :: snd g) Atom false)
    end
  else if Ascii.eqb c "|" then
    inl (mkParser (enclosing p)
           (fst (current p) ++ [concat_items (snd (current p))], []) Nothing false)
  else if is_repeat_sign c then
    match last p with
    | Nothing => inr Invalid
    | OpenParen => if Ascii.eqb c "?" then inr Unsupported else inr Invalid
    | Atom => inl (repeat_last c p)
    | Repeat =>
        if Ascii.eqb c "?"
        then inl (mkParser (enclosing p) (current p) LazyRepeat false)
        else if Ascii.eqb c "*" then inr Invalid else inr Unsupported
    | LazyRepeat => inr Invalid
    end
  else if outside_fragment c then inr Unsupported
  else inl (push_item (if Ascii.eqb c "." then Dot else Chr c) p).

Fixpoint parse (s : string) (p : parser) : compiled :=
  match s with
  | EmptyString =>
      if escaped p then Invalid
      else match enclosing p with
           | [] => Compiled (close_group (current p))
           | _ :: _ => Invalid
           end
  | String c s' =>
      match parse_char c p with
      | inl p' => parse s' p'
      | inr verdict => verdict
      end
  end.

(** [re.compile(pat, re.IGNORECASE)] on the fragment. *)
Definition re_compile (pat : string) : compiled :=
  parse pat (mkParser [] ([], []) Nothing false).

(** The search of a pattern of the fragment.  Python compiles most patterns
    outside the fragment; they have no faithful answer here and get the one
    of a pattern that does not compile, so the runtime is to be evaluated on
    patterns of the fragment only, as every statement below does. *)
Definition ascii_search (pat : string) : option (string -> bool) :=
  match re_compile pat with
  | Compiled r => Some (search r)
  | Invalid | Unsupported => None
  end.

(** *** The order of the rounded integers

    A runtime owes the law [operand_of_int_mono]; for the rounding of
    integers to float64 it is proved here, before the instance is given. *)

Lemma div_nearest_even_bounds (n d : Z) :
  (n / d <= div_nearest_even n d <= n / d + 1)%Z.
Proof.
  unfold div_nearest_even.
  destruct (2 * (n mod d) <? d)%Z; [lia|].
  destruct (d <? 2 * (n mod d))%Z; [lia|].
  destruct (Z.even (n / d)); lia.
Qed.

Lemma div_nearest_even_mono (a b d : Z) :
  (0 < d)%Z -> (a <= b)%Z ->
  (div_nearest_even a d <= div_nearest_even b d)%Z.
Proof.
  intros Hd Hab.
  assert (Hk : (a / d <= b / d)%Z) by now apply Z.div_le_mono.
  destruct (Z.eq_dec (a / d) (b / d)) as [E | N].
  - assert (Hr : (a mod d <= b mod d)%Z).
    { rewrite !Z.mod_eq by lia. rewrite E. lia. }
    unfold div_nearest_even. rewrite E.
    destruct (Z.ltb_spec (2 * (a mod d)) d), (Z.ltb_spec (2 * (b mod d)) d),
      (Z.ltb_spec d (2 * (a mod d))), (Z.ltb_spec d (2 * (b mod d)));
      destruct (Z.even (b / d)); lia.
  - pose proof (div_nearest_even_bounds a d).
    pose proof (div_nearest_even_bounds b d). lia.
Qed.

Lemma float64_of_natural_binade (n : Z) :
  (2 ^ 53 <= n)%Z ->
  (2 ^ Z.log2 n <= float64_of_natural n <= 2 ^ (Z.log2 n + 1))%Z.
Proof.
  intros Hn.
  assert (Hpos : (0 < n)%Z) by (pose proof (Z.pow_pos_nonneg 2 53); lia).
  assert (HL : (53 <= Z.log2 n)%Z).
  { apply Z.log2_le_pow2; [exact Hpos | exact Hn]. }
  destruct (Z.log2_spec n Hpos) as [Hlo Hhi].
  unfold float64_of_natural, round_to_multiple.
  destruct (Z.ltb_spec n (2 ^ 53)); [lia|].
  set (e := (Z.log2 n - 52)%Z).
  assert (He : (0 <= e)%Z) by (unfold e; lia).
  assert (Hu : (0 < 2 ^ e)%Z) by (apply Z.pow_pos_nonneg; lia).
  assert (E1 : (2 ^ Z.log2 n = 2 ^ 52 * 2 ^ e)%Z).
  { rewrite <- Z.pow_add_r by lia. f_equal. unfold e. lia. }
  assert (E2 : (2 ^ (Z.log2 n + 1) = 2 ^ 53 * 2 ^ e)%Z).
  { rewrite <- Z.pow_add_r by lia. f_equal. unfold e. lia. }
  replace (Z.succ (Z.log2 n)) with (Z.log2 n + 1)%Z in Hhi by lia.
  rewrite E1 in Hlo |- *. rewrite E2 in Hhi |- *.
  pose proof (div_nearest_even_bounds n (2 ^ e)) as [B1 B2].
  assert (K1 : (2 ^ 52 <= n / 2 ^ e)%Z) by (apply Z.div_le_lower_bound; lia).
  assert (K2 : (n / 2 ^ e < 2 ^ 53)%Z) by (apply Z.div_lt_upper_bound; lia).
  split; apply Z.mul_le_mono_nonneg_r; lia.
Qed.

Lemma float64_of_natural_mono (a b : Z) :
  (0 <= a <= b)%Z -> (float64_of_natural a <= float64_of_natural b)%Z.
Proof.
  intros [Ha Hab].
  destruct (Z.lt_ge_cases b (2 ^ 53)) as [Hb | Hb].
  - unfold float64_of_natural.
    destruct (Z.ltb_spec a (2 ^ 53)), (Z.ltb_spec b (2 ^ 53)); lia.
  - pose proof (float64_of_natural_binade b Hb) as [Bb _].
    assert (Hbpos : (0 < b)%Z) by (pose proof (Z.pow_pos_nonneg 2 53); lia).
    assert (HLb : (53 <= Z.log2 b)%Z) by (apply Z.log2_le_pow2; assumption).
    destruct (Z.lt_ge_cases a (2 ^ 53)) as [Ha' | Ha'].
    + assert (X : (2 ^ 53 <= 2 ^ Z.log2 b)%Z) by (apply Z.pow_le_mono_r; lia).
      unfold float64_of_natural at 1.
      destruct (Z.ltb_spec a (2 ^ 53)); lia.
    + pose proof (float64_of_natural_binade a Ha') as [_ Ba].
      assert (HL : (Z.log2 a <= Z.log2 b)%Z) by (apply Z.log2_le_mono; exact Hab).
      destruct (Z.eq_dec (Z.log2 a) (Z.log2 b)) as [E | N].
      * unfold float64_of_natural, round_to_multiple.
        destruct (Z.ltb_spec a (2 ^ 53)), (Z.ltb_spec b (2 ^ 53)); try lia.
        rewrite E.
        assert (Hu : (0 < 2 ^ (Z.log2 b - 52))%Z) by (apply Z.pow_pos_nonneg; lia).
        apply Z.mul_le_mono_nonneg_r; [lia|].
        now apply div_nearest_even_mono.
      * assert (X : (2 ^ (Z.log2 a + 1) <= 2 ^ Z.log2 b)%Z)
          by (apply Z.pow_le_mono_r; lia).
        lia.
Qed.

Lemma float64_of_natural_nonneg (n : Z) :
  (0 <= n)%Z -> (0 <= float64_of_natural n)%Z.
Proof.
  intros Hn. pose proof (float64_of_natural_mono 0 n (conj (Z.le_refl 0) Hn)) as H.
  exact H.
Qed.

Lemma inject_Z_le_bool (a b : Z) :
  (a <= b)%Z -> Qle_bool (inject_Z a) (inject_Z b) = true.
Proof.
  intros H. apply Qle_bool_iff. now rewrite <- Zle_Qle.
Qed.

Lemma float64_of_int_mono (n m : Z) :
  (n <= m)%Z -> number_le (float64_of_int n) (float64_of_int m) = true.
Proof.
  intros Hnm. unfold float64_of_int.
  set (big := (2 ^ 1024)%Z).
  pose proof (float64_of_natural_nonneg (Z.abs n) (Z.abs_nonneg n)) as Pn.
  pose proof (float64_of_natural_nonneg (Z.abs m) (Z.abs_nonneg m)) as Pm.
  destruct (Z.ltb_spec n 0) as [Hn | Hn], (Z.ltb_spec m 0) as [Hm | Hm].
  - assert (Hv : (float64_of_natural (Z.abs m) <= float64_of_natural (Z.abs n))%Z)
      by (apply float64_of_natural_mono; lia).
    destruct (Z.leb_spec big (float64_of_natural (Z.abs n))); [reflexivity|].
    destruct (Z.leb_spec big (float64_of_natural (Z.abs m))); [lia|].
    apply inject_Z_le_bool. rewrite !Z.sgn_neg by lia. lia.
  - destruct (Z.leb_spec big (float64_of_natural (Z.abs n))); [reflexivity|].
    destruct (Z.leb_spec big (float64_of_natural (Z.abs m))); [reflexivity|].
    apply inject_Z_le_bool. rewrite (Z.sgn_neg n) by lia.
    pose proof (Z.sgn_nonneg m). 
    assert (0 <= Z.sgn m * float64_of_natural (Z.abs m))%Z by (apply Z.mul_nonneg_nonneg; lia).
    lia.
  - lia.
  - assert (Hv : (float64_of_natural (Z.abs n) <= float64_of_natural (Z.abs m))%Z)
      by (apply float64_of_natural_mono; lia).
    destruct (Z.leb_spec big (float64_of_natural (Z.abs m)));
      [now destruct (big <=? float64_of_natural (Z.abs n))%Z|].
    destruct (Z.leb_spec big (float64_of_natural (Z.abs n))); [lia|].
    apply inject_Z_le_bool.
    destruct (Z.eq_dec n 0) as [-> | Nn].
    + simpl Z.sgn. assert (0 <= Z.sgn m * float64_of_natural (Z.abs m))%Z
        by (apply Z.mul_nonneg_nonneg; [apply Z.sgn_nonneg|]; lia). lia.
    + rewrite !Z.sgn_pos by lia. lia.
Qed.

(** The runtime of the examples.  It agrees with the library on ASCII
    text, for patterns of the fragment, for a [populasi] column of floats
    (which a column with a missing value is), and for pandas up to 2 in
    what [astype(str)] makes of a missing value. *)
Definition ascii_runtime : Runtime := {|
  py_int := ascii_int;
  re_search_ignorecase := ascii_search;
  casefold := ascii_lower;
  lower := ascii_lower;
  astype_str_na := Some "nan";
  read_csv := ascii_read_csv;
  to_numeric := ascii_to_numeric;
  series_mean := ascii_mean;
  operand_of_int := float64_of_int;
  operand_of_int_mono := float64_of_int_mono
|}.

(** [needle in haystack], both lowered: the keyword as plain text. *)
Fixpoint is_prefix (p s : string) : bool :=
  match p, s with
  | EmptyString, _ => true
  | String a p', String b s' => Ascii.eqb a b && is_prefix p' s'
  | String _ _, EmptyString => false
  end.

Fixpoint is_substring (p s : string) : bool :=
  is_prefix p s ||
  match s with
  | EmptyString => false
  | String _ s' => is_substring p s'
  end.

(* ================================================================== *)
(** ** The values the handler computes, apart from where they are stored *)

(** The world after one more object was created. *)
Definition extend (w : world) (t : DataFrame) : world :=
  mkWorld (heap w ++ [t]) (df w) (NAMES w).

(** [w'] is [w] with more objects: nothing that exists is changed. *)
Definition extends (w w' : world) : Prop :=
  df w' = df w /\ NAMES w' = NAMES w /\ exists more, heap w' = heap w ++ more.

(** The row has both coordinates. *)
Definition is_located (r : row) : bool := notna (lat r) && notna (lon r).

(** The marker of a row, or the error of its popup text. *)
Definition marker_of (r : row) : exn + Marker :=
  match popup_text r with
  | inr text => inr (mkMarker (lat r, lon r) text (nama r))
  | inl e => inl e
  end.

(** The markers of the rows in order, or the first error. *)
Fixpoint markers_for (rows : list row) : exn + list Marker :=
  match rows with
  | [] => inr []
  | r :: rest =>
      match marker_of r with
      | inl e => inl e
      | inr mk =>
          match markers_for rest with
          | inl e => inl e
          | inr mks => inr (mk :: mks)
          end
      end
  end.

(** The map with a given centre and given markers. *)
Definition map_with (center : float * float) (markers : list Marker) : Map :=
  add_legend
    (add_child (LayerControl false)
       (add_child (MarkerCluster "Cluster Lokasi" markers)
          (add_child (Fullscreen "topleft")
             (add_child (MiniMap true "bottomright")
                (add_base_layers (mkMap center 8 true [DefaultTiles])))))).

(** The markers and the centre of a rendered map. *)
Definition markers_of (h : html) : list Marker :=
  match h with
  | repr_html m =>
      flat_map (fun e => match e with MarkerCluster _ ms => ms | _ => [] end)
        (children m)
  end.

Definition center_of (h : html) : float * float :=
  match h with repr_html m => location m end.

Section Values.
Context {rt : Runtime}.

(** The population of the row is a number and at least the value [n] is
    compared as. *)
Definition at_least (n : Z) (r : row) : bool :=
  match populasi r with
  | Some v => number_le (operand_of_int n) v
  | None => false
  end.

Definition center_of_table (t : DataFrame) : float * float :=
  if (0 <? List.length t)%nat && notna_any (map lat t) && notna_any (map lon t)
  then (mean (map lat t), mean (map lon t))
  else fallback_center.

(** What [build_map] returns for a table: the map and the count, or the
    error of a centre that is NaN or of a popup text. *)
Definition map_of_table (t : DataFrame) : exn + (html * nat) :=
  if notna (fst (center_of_table t)) && notna (snd (center_of_table t)) then
    match markers_for (filter is_located t) with
    | inr markers =>
        inr (repr_html (map_with (center_of_table t) markers),
             List.length (filter is_located t))
    | inl e => inl e
    end
  else inl ValueError.

(** The name of a row as the two text filters read it. *)
Definition name_text (r : row) : option string :=
  match nama r with Some v => Some v | None => astype_str_na end.

Definition name_matches (found : string -> bool) (r : row) : bool :=
  match name_text r with Some v => found v | None => false end.

Definition same_name (selected : string) (r : row) : bool :=
  match name_text r with
  | Some v => String.eqb (casefold v) (casefold selected)
  | None => false
  end.

Definition keep_min_pop (min_pop_str : string) (t : DataFrame) : DataFrame :=
  if truthy min_pop_str then
    match py_int min_pop_str with
    | Some n => filter (at_least n) t
    | None => t
    end
  else t.

Definition keep_keyword (keyword : string) (t : DataFrame) : exn + DataFrame :=
  if truthy keyword then
    match re_search_ignorecase keyword with
    | Some found => inr (filter (name_matches found) t)
    | None => inl ReError
    end
  else inr t.

Definition keep_name (selected_name : string) (t : DataFrame) : DataFrame :=
  if truthy selected_name then filter (same_name selected_name) t else t.

Definition kept (min_pop_str keyword selected_name : string) (t : DataFrame)
  : exn + DataFrame :=
  match keep_keyword keyword (keep_min_pop min_pop_str t) with
  | inr t' => inr (keep_name selected_name t')
  | inl e => inl e
  end.

Definition page_of (request : Request) (t : DataFrame) (names : list string)
  : exn + response :=
  let min_pop_str := form_get (form request) "min_pop" "" in
  let keyword := form_get (form request) "keyword" "" in
  let selected_name := form_get (form request) "name" "" in
  match kept min_pop_str keyword selected_name t with
  | inr t' =>
      match map_of_table t' with
      | inr (map_html, result_count) =>
          inr (render_template "home.html"
                 (mkContext map_html min_pop_str keyword names selected_name
                    result_count))
      | inl e => inl e
      end
  | inl e => inl e
  end.

(** The filters a request puts to work, in the order of the handler. *)
Definition active_filters (request : Request) : list (row -> bool) :=
  let min_pop_str := form_get (form request) "min_pop" "" in
  let keyword := form_get (form request) "keyword" "" in
  let selected_name := form_get (form request) "name" "" in
  (if truthy min_pop_str then
     match py_int min_pop_str with Some n => [at_least n] | None => [] end
   else [])
  ++ (if truthy keyword then
        match re_search_ignorecase keyword with
        | Some found => [name_matches found]
        | None => []
        end
      else [])
  ++ (if truthy selected_name then [same_name selected_name] else []).

(** The handler without its minimum-population step: the copy of the global
    table, then the keyword and the dropdown filter only. *)
Definition home_without_min_pop (request : Request) : M response :=
  let min_pop_str := form_get (form request) "min_pop" "" in
  let keyword := form_get (form request) "keyword" "" in
  let selected_name := form_get (form request) "name" "" in
  dff <- (d <- global_df ;;
          dff <- copy d ;;
          dff <- filter_keyword keyword dff ;;
          filter_name selected_name dff) ;;
  ' (map_html, result_count) <- build_map dff ;;
  names <- global_NAMES ;;
  ret (render_template "home.html"
         (mkContext map_html min_pop_str keyword names selected_name result_count)).

End Values.

(** Filters applied one after the other. *)
Definition apply_filters (fs : list (row -> bool)) (t : DataFrame) : DataFrame :=
  fold_left (fun acc f => filter f acc) fs t.

Definition satisfies_all (fs : list (row -> bool)) (r : row) : bool :=
  forallb (fun f => f r) fs.

(** The name of the row is the selected text, letter for letter. *)
Definition exact_name (selected : string) (r : row) : bool :=
  match nama r with Some v => String.eqb v selected | None => false end.

(** The name of the row contains the keyword as plain text, case apart. *)
Definition contains_keyword (keyword : string) (r : row) : bool :=
  match nama r with
  | Some v => is_substring (ascii_lower keyword) (ascii_lower v)
  | None => false
  end.

(** The same request with an empty [min_pop] field. *)
Definition without_min_pop (request : Request) : Request :=
  mkRequest (method request) (("min_pop", "") :: form request).

(** The page with another text in the [min_pop] argument of the template. *)
Definition with_min_pop (s : string) (r : response) : response :=
  match r with
  | render_template name c =>
      render_template name
        (mkContext (ctx_map_html c) s (ctx_keyword c) (ctx_names c)
           (ctx_selected_name c) (ctx_result_count c))
  end.

Definition result_count_of (r : exn + response) : option nat :=
  match r with
  | inr (render_template _ c) => Some (ctx_result_count c)
  | inl _ => None
  end.

Definition map_html_of (r : exn + response) : option html :=
  match r with
  | inr (render_template _ c) => Some (ctx_map_html c)
  | inl _ => None
  end.

(* ================================================================== *)
(** ** A small dataset *)

Definition nl : string := String (ascii_of_nat 10) "".

(** The content of a file, line by line. *)
Definition file_of (lines : list string) : string :=
  String.concat nl lines.

Definition sample_file : string :=
  file_of [ "nama,lat,lon,populasi";
            "Bandung,-6.875,107.625,2500000";
            "Bogor,-6.625,106.75,1100000";
            "Cianjur,,unknown,170000";
            "Garut,-7.25,107.875,n/a" ].

(** The table [read_csv] makes of the sample file. *)
Definition sample_csv : csv_table :=
  [ ("nama", [Some "Bandung"; Some "Bogor"; Some "Cianjur"; Some "Garut"]);
    ("lat", [Some "-6.875"; Some "-6.625"; None; Some "-7.25"]);
    ("lon", [Some "107.625"; Some "106.75"; Some "unknown"; Some "107.875"]);
    ("populasi", [Some "2500000"; Some "1100000"; Some "170000"; None]) ].

(** A file with its four columns and one record too long. *)
Definition ragged_file : string :=
  file_of [ "nama,lat,lon,populasi";
            "Bandung,-6.875,107.625,2500000";
            "Bogor,-6.625,106.75,1100000,kota" ].

Definition bandung : row :=
  mkRow (Some "Bandung") (Some (Finite (-55 # 8))) (Some (Finite (861 # 8)))
    (Some (Finite (2500000 # 1))).

Definition bogor : row :=
  mkRow (Some "Bogor") (Some (Finite (-53 # 8))) (Some (Finite (427 # 4)))
    (Some (Finite (1100000 # 1))).

(** A row without coordinates. *)
Definition cianjur : row :=
  mkRow (Some "Cianjur") None None (Some (Finite (170000 # 1))).

(** A row without a population. *)
Definition garut : row :=
  mkRow (Some "Garut") (Some (Finite (-29 # 4))) (Some (Finite (863 # 8))) None.

Definition sample : DataFrame := [bandung; bogor; cianjur; garut].

Definition sample_world : world :=
  mkWorld [sample] 0 ["Bandung"; "Bogor"; "Cianjur"; "Garut"].

Definition post (min_pop_str keyword selected_name : string) : Request :=
  mkRequest POST
    [("min_pop", min_pop_str); ("keyword", keyword); ("name", selected_name)].

Definition get : Request := mkRequest GET [].

(** A table whose rows all have coordinates. *)
Definition located_sample : DataFrame := [bandung; bogor].

Definition located_world : world :=
  mkWorld [located_sample] 0 ["Bandung"; "Bogor"].




(** A table with an infinite population, as the field inf is read. *)
Definition tak_hingga : row :=
  mkRow (Some "Tak Hingga") (Some (Finite (-55 # 8))) (Some (Finite (861 # 8)))
    (Some PosInf).

Definition infinite_world : world := mkWorld [[bandung; tak_hingga]] 0
  ["Bandung"; "Tak Hingga"].

(* ================================================================== *)
(** ** Observations on maps and tables *)

Definition tile_layer_name (e : element) : option string :=
  match e with TileLayer _ n _ _ _ _ => Some n | _ => None end.

(** The names the layer control lists for the base maps. *)
Definition tile_layer_names (m : Map) : list string :=
  present (map tile_layer_name (children m)).

(** A layer given by a URL template carries an attribution; a layer given
    by the name of a built-in provider needs none. *)
Definition attributed (e : element) : bool :=
  match e with
  | TileLayer tiles _ attr _ _ _ => if is_prefix "http" tiles then notna attr else true
  | _ => true
  end.

Definition shown_in_control (e : element) : bool :=
  match e with TileLayer _ _ _ _ _ control => control | _ => true end.

(** All columns of the table have the same number of values. *)
Definition rectangular (csv : csv_table) : Prop :=
  exists n, Forall (fun c => List.length (snd c) = n) csv.

(** Names in ascending order, neighbours compared. *)
Fixpoint ascending (l : list string) : bool :=
  match l with
  | x :: ((y :: _) as l') => String.leb x y && ascending l'
  | _ => true
  end.

(** A character that stands for itself in a pattern: ASCII, and none of
    the signs the pattern language gives a meaning to. *)
Definition plain_char (c : ascii) : bool :=
  in_range 0 127 c
  && negb (Ascii.eqb c "\" || Ascii.eqb c "(" || Ascii.eqb c ")" || Ascii.eqb c "|"
           || Ascii.eqb c "." || is_repeat_sign c || outside_fragment c).

Fixpoint plain_keyword (s : string) : bool :=
  match s with
  | EmptyString => true
  | String c s' => plain_char c && plain_keyword s'
  end.

(** The pattern of a text read letter by letter. *)
Fixpoint literal (s : string) : regex :=
  match s with
  | EmptyString => Eps
  | String c s' => Cat (Chr c) (literal s')
  end.

(* ================================================================== *)
(** * Properties *)

(** ** The ASCII runtime on small inputs *)

Example ascii_int_examples :
  ascii_int "12" = Some 12%Z /\ ascii_int " -1_000 " = Some (-1000)%Z /\
  ascii_int "abc" = None /\ ascii_int "12.5" = None /\ ascii_int "1__0" = None.
Proof. repeat split. Qed.

Example re_compile_examples :
  re_compile "." = Compiled (Cat Dot Eps) /\
  re_compile "(" = Invalid /\ re_compile ")" = Invalid /\
  re_compile "*" = Invalid /\ re_compile "[a]" = Unsupported /\
  option_map (fun found => found "Kota Bandung") (ascii_search "band") = Some true /\
  option_map (fun found => found "abc") (ascii_search "a.c") = Some true /\
  option_map (fun found => found "abc") (ascii_search "a\.c") = Some false.
Proof. repeat split. Qed.

Example popup_text_examples :
  popup_text bandung = inr "Bandung<br>Populasi: 2,500,000" /\
  popup_text garut = inr "Garut" /\
  popup_text tak_hingga = inl OverflowError.
Proof. repeat split. Qed.

(** Rounding to float64: one tenth is not a float; three of them add up to
    more than three tenths; [2 ^ 53 + 1] is not a float either. *)
Example float64_examples :
  float64_of_Q (1 # 10) = Finite (3602879701896397 # 36028797018963968) /\
  ascii_mean [float64_of_Q (1 # 10); float64_of_Q (1 # 10); float64_of_Q (1 # 10)]
  = Some (Finite (7205759403792795 # 72057594037927936)) /\
  float64_of_int 9007199254740993 = Finite (9007199254740992 # 1) /\
  float64_of_int 9007199254740995 = Finite (9007199254740996 # 1) /\
  float64_of_int (-12) = Finite (-12 # 1).
Proof. repeat split; vm_compute; reflexivity. Qed.

Example ascii_to_numeric_examples :
  ascii_to_numeric "-6.875" = Some (Finite (-55 # 8)) /\
  ascii_to_numeric " 12 " = Some (Finite (12 # 1)) /\
  ascii_to_numeric ".5" = Some (Finite (1 # 2)) /\
  ascii_to_numeric "1e3" = Some (Finite (1000 # 1)) /\
  ascii_to_numeric "inf" = Some PosInf /\
  ascii_to_numeric "-inf" = Some NegInf /\
  ascii_to_numeric "unknown" = None.
Proof. repeat split; vm_compute; reflexivity. Qed.

Example ascii_read_csv_examples :
  ascii_read_csv (Some sample_file) = inr sample_csv /\
  ascii_read_csv (Some ragged_file) = inl ParserError /\
  ascii_read_csv (Some "") = inl EmptyDataError /\
  ascii_read_csv None = inl FileNotFoundError.
Proof. repeat split; vm_compute; reflexivity. Qed.

(** ** The heap: new objects leave the old ones alone *)

Lemma frame_extend_new (w : world) (t : DataFrame) :
  frame (extend w t) (List.length (heap w)) = t.
Proof.
  unfold frame, extend; simpl.
  rewrite app_nth2 by lia.
  now rewrite Nat.sub_diag.
Qed.

Lemma frame_extend_old (w : world) (t : DataFrame) (r : ref) :
  (r < List.length (heap w))%nat -> frame (extend w t) r = frame w r.
Proof.
  intros Hr. unfold frame, extend; simpl.
  now rewrite app_nth1.
Qed.

Lemma extends_refl (w : world) : extends w w.
Proof.
  repeat split. exists []. now rewrite app_nil_r.
Qed.

Lemma extends_trans (w1 w2 w3 : world) :
  extends w1 w2 -> extends w2 w3 -> extends w1 w3.
Proof.
  intros (Hd1 & Hn1 & m1 & Hh1) (Hd2 & Hn2 & m2 & Hh2).
  repeat split; try congruence.
  exists (m1 ++ m2). now rewrite Hh2, Hh1, app_assoc.
Qed.

Lemma extends_extend (w : world) (t : DataFrame) : extends w (extend w t).
Proof.
  repeat split. now exists [t].
Qed.

Lemma extends_frame (w w' : world) (r : ref) :
  extends w w' -> (r < List.length (heap w))%nat -> frame w' r = frame w r.
Proof.
  intros (_ & _ & more & Hh) Hr. unfold frame.
  rewrite Hh. now apply app_nth1.
Qed.

Lemma extends_length (w w' : world) :
  extends w w' -> (List.length (heap w) <= List.length (heap w'))%nat.
Proof.
  intros (_ & _ & more & Hh). rewrite Hh, length_app. lia.
Qed.

(** ** Masks and filters *)

Lemma select_map (p : row -> bool) (t : DataFrame) :
  select (map p t) t = filter p t.
Proof.
  induction t as [| r t IH]; simpl; [reflexivity|].
  rewrite IH. reflexivity.
Qed.

Lemma select_map_field {A : Type} (field : row -> option A) (p : option A -> bool)
    (t : DataFrame) :
  select (map p (map field t)) t = filter (fun r => p (field r)) t.
Proof.
  rewrite map_map. apply select_map.
Qed.

Lemma filter_comm (p q : row -> bool) (t : DataFrame) :
  filter p (filter q t) = filter q (filter p t).
Proof.
  induction t as [| r t IH]; simpl; [reflexivity|].
  destruct (q r) eqn:Hq, (p r) eqn:Hp; simpl; rewrite ?Hq, ?Hp, IH; reflexivity.
Qed.

Lemma filter_filter_and (p q : row -> bool) (t : DataFrame) :
  filter p (filter q t) = filter (fun r => q r && p r) t.
Proof.
  induction t as [| r t IH]; simpl; [reflexivity|].
  destruct (q r); simpl; [destruct (p r)|]; now rewrite IH.
Qed.

Lemma apply_filters_satisfies_all (fs : list (row -> bool)) (t : DataFrame) :
  apply_filters fs t = filter (satisfies_all fs) t.
Proof.
  unfold apply_filters. revert t.
  induction fs as [| f fs IH]; intros t; simpl.
  - unfold satisfies_all; simpl.
    induction t as [| r t IHt]; simpl; [reflexivity | now rewrite <- IHt].
  - rewrite IH, filter_filter_and. reflexivity.
Qed.

Lemma satisfies_all_perm (fs gs : list (row -> bool)) (r : row) :
  Permutation fs gs -> satisfies_all fs r = satisfies_all gs r.
Proof.
  unfold satisfies_all.
  induction 1 as [| f fs gs _ IH | f g fs | fs gs hs _ IH1 _ IH2]; simpl.
  - reflexivity.
  - now rewrite IH.
  - destruct (g r), (f r); reflexivity.
  - congruence.
Qed.

Lemma apply_filters_perm (fs gs : list (row -> bool)) (t : DataFrame) :
  Permutation fs gs -> apply_filters fs t = apply_filters gs t.
Proof.
  intros Hp. rewrite !apply_filters_satisfies_all.
  apply filter_ext. intros r. now apply satisfies_all_perm.
Qed.

Lemma number_le_trans (a b c : number) :
  number_le a b = true -> number_le b c = true -> number_le a c = true.
Proof.
  destruct a as [| x |], b as [| y |], c as [| z |]; simpl;
    try reflexivity; try discriminate.
  rewrite !Qle_bool_iff. apply Qle_trans.
Qed.


(** ** The loop of [build_map] *)

Lemma place_markers_run (rows : list row) (ms : list Marker) (k : nat)
    (w : world) :
  place_markers rows (ms, k) w
  = match markers_for rows with
    | inr mks => (inr (ms ++ mks, (k + List.length rows)%nat), w)
    | inl e => (inl e, w)
    end.
Proof.
  revert ms k. induction rows as [| r rows IH]; intros ms k.
  - cbn. now rewrite app_nil_r, Nat.add_0_r.
  - cbn [place_markers markers_for]. unfold bind, place_marker, marker_of.
    destruct (popup_text r) as [e | text]; [reflexivity|].
    cbn [ret]. rewrite IH.
    destruct (markers_for rows) as [e | mks]; [reflexivity|].
    rewrite <- app_assoc. cbn [app List.length]. do 3 f_equal. lia.
Qed.

(** ** The monad of the handler *)

Lemma bind_returns {A B : Type} (m : M A) (k : A -> M B) (w w' : world) (a : A) :
  m w = (inr a, w') -> bind m k w = k a w'.
Proof.
  intros E. unfold bind. now rewrite E.
Qed.

Lemma bind_raises {A B : Type} (m : M A) (k : A -> M B) (w w' : world) (e : exn) :
  m w = (inl e, w') -> bind m k w = (inl e, w').
Proof.
  intros E. unfold bind. now rewrite E.
Qed.

Lemma bind_assoc {A B C : Type} (m : M A) (k : A -> M B) (h : B -> M C) (w : world) :
  bind (bind m k) h w = bind m (fun a => bind (k a) h) w.
Proof.
  unfold bind. destruct (m w) as [[e | a] w']; reflexivity.
Qed.

(** ** What each step of the handler returns and allocates *)

Section Runs.
Context {rt : Runtime}.

Lemma build_map_run (dframe : ref) (w : world) :
  exists w', extends w w' /\
    build_map dframe w = (map_of_table (frame w dframe), w').
Proof.
  unfold build_map, map_of_table.
  rewrite (bind_returns _ _ _ _ _
             (eq_refl : deref dframe w = (inr (frame w dframe), w))).
  rewrite (bind_returns _ _ _ _ _
             (eq_refl : column dframe lat w = (inr (map lat (frame w dframe)), w))).
  rewrite (bind_returns _ _ _ _ _
             (eq_refl : column dframe lon w = (inr (map lon (frame w dframe)), w))).
  fold (center_of_table (frame w dframe)).
  set (center := center_of_table (frame w dframe)).
  destruct (notna (fst center) && notna (snd center)) eqn:Hc.
  - assert (Em : folium_Map center 8 true w
                 = (inr (mkMap center 8 true [DefaultTiles]), w))
      by (unfold folium_Map; now rewrite Hc).
    rewrite (bind_returns _ _ _ _ _ Em).
    set (located := filter is_located (frame w dframe)).
    rewrite (bind_returns _ _ _ _ _
               (eq_refl : dropna_lat_lon dframe w
                          = (inr (List.length (heap w)), extend w located))).
    rewrite (bind_returns _ _ _ _ _
               (eq_refl : deref (List.length (heap w)) (extend w located)
                          = (inr (frame (extend w located) (List.length (heap w))),
                             extend w located))).
    rewrite frame_extend_new.
    exists (extend w located). split; [apply extends_extend|].
    unfold bind. rewrite place_markers_run.
    destruct (markers_for located); reflexivity.
  - exists w. split; [apply extends_refl|].
    apply bind_raises. unfold folium_Map. now rewrite Hc.
Qed.

Lemma filter_min_pop_frame (s : string) (dff : ref) (w : world) :
  exists l w',
    filter_min_pop s dff w = (inr l, w') /\ extends w w' /\
    frame w' l = keep_min_pop s (frame w dff).
Proof.
  unfold filter_min_pop, keep_min_pop.
  destruct (truthy s).
  - unfold try_except, int_, bind.
    destruct (py_int s) as [n|].
    + exists (List.length (heap w)), (extend w (filter (at_least n) (frame w dff))).
      unfold ret, column, bind, deref, getitem, alloc, series_ge; simpl.
      rewrite select_map_field.
      split; [reflexivity|]. split; [apply extends_extend|].
      apply frame_extend_new.
    + exists dff, w. simpl. split; [reflexivity|]. split; [apply extends_refl | reflexivity].
  - exists dff, w. split; [reflexivity|]. split; [apply extends_refl | reflexivity].
Qed.

Lemma filter_keyword_frame (keyword : string) (dff : ref) (w : world) :
  match keep_keyword keyword (frame w dff) with
  | inr t =>
      exists l w',
        filter_keyword keyword dff w = (inr l, w') /\ extends w w' /\ frame w' l = t
  | inl e => filter_keyword keyword dff w = (inl e, w)
  end.
Proof.
  unfold filter_keyword, keep_keyword.
  destruct (truthy keyword).
  - unfold str_contains, column, bind, deref, ret.
    destruct (re_search_ignorecase keyword) as [found|]; [|reflexivity].
    exists (List.length (heap w)), (extend w (filter (name_matches found) (frame w dff))).
    unfold getitem, bind, deref, alloc, astype_str; simpl.
    rewrite !map_map, select_map.
    split; [reflexivity|]. split; [apply extends_extend|].
    apply frame_extend_new.
  - exists dff, w. split; [reflexivity|]. split; [apply extends_refl | reflexivity].
Qed.

Lemma filter_name_frame (selected_name : string) (dff : ref) (w : world) :
  exists l w',
    filter_name selected_name dff w = (inr l, w') /\ extends w w' /\
    frame w' l = keep_name selected_name (frame w dff).
Proof.
  unfold filter_name, keep_name.
  destruct (truthy selected_name).
  - exists (List.length (heap w)), (extend w (filter (same_name selected_name) (frame w dff))).
    unfold column, getitem, bind, deref, alloc, ret, series_eq, str_casefold, astype_str; simpl.
    rewrite !map_map, select_map.
    split.
    + unfold extend. do 4 f_equal. apply filter_ext. intros r.
      unfold same_name, name_text.
      destruct (nama r); [reflexivity|]. now destruct astype_str_na.
    + split; [apply extends_extend | apply frame_extend_new].
  - exists dff, w. split; [reflexivity|]. split; [apply extends_refl | reflexivity].
Qed.

Lemma filtered_run (min_pop_str keyword selected_name : string) (w : world) :
  exists w', extends w w' /\
    match kept min_pop_str keyword selected_name (frame w (df w)) with
    | inr t =>
        exists l, filtered min_pop_str keyword selected_name w = (inr l, w')
                  /\ frame w' l = t
    | inl e => filtered min_pop_str keyword selected_name w = (inl e, w')
    end.
Proof.
  unfold filtered, kept.
  assert (Eg : global_df w = (inr (df w), w)) by reflexivity.
  assert (E0 : copy (df w) w
               = (inr (List.length (heap w)), extend w (frame w (df w))))
    by reflexivity.
  pose proof (frame_extend_new w (frame w (df w))) as F0.
  set (w0 := extend w (frame w (df w))) in *.
  set (l0 := List.length (heap w)) in *.
  destruct (filter_min_pop_frame min_pop_str l0 w0) as (l1 & w1 & E1 & X1 & F1).
  rewrite F0 in F1.
  pose proof (filter_keyword_frame keyword l1 w1) as Hk.
  rewrite F1 in Hk.
  assert (X01 : extends w w1)
    by (eapply extends_trans; [apply extends_extend | exact X1]).
  destruct (keep_keyword keyword (keep_min_pop min_pop_str (frame w (df w))))
    as [e | t2].
  - exists w1. split; [exact X01|].
    rewrite (bind_returns _ _ _ _ _ Eg), (bind_returns _ _ _ _ _ E0).
    rewrite (bind_returns _ _ _ _ _ E1).
    now rewrite (bind_raises _ _ _ _ _ Hk).
  - destruct Hk as (l2 & w2 & E2 & X2 & F2).
    destruct (filter_name_frame selected_name l2 w2) as (l3 & w3 & E3 & X3 & F3).
    exists w3. split.
    + eapply extends_trans; [exact X01|].
      eapply extends_trans; [exact X2 | exact X3].
    + exists l3.
      rewrite (bind_returns _ _ _ _ _ Eg), (bind_returns _ _ _ _ _ E0).
      rewrite (bind_returns _ _ _ _ _ E1), (bind_returns _ _ _ _ _ E2).
      split; [exact E3|]. now rewrite F3, F2.
Qed.

Lemma filtered_table_kept (w : world) (request : Request) :
  filtered_table w request
  = kept (form_get (form request) "min_pop" "")
         (form_get (form request) "keyword" "")
         (form_get (form request) "name" "") (frame w (df w)).
Proof.
  unfold filtered_table.
  destruct (filtered_run (form_get (form request) "min_pop" "")
              (form_get (form request) "keyword" "")
              (form_get (form request) "name" "") w) as (w' & _ & H).
  destruct (kept _ _ _ _) as [e | t].
  - now rewrite H.
  - destruct H as (l & E & F). now rewrite E, F.
Qed.

Lemma home_run (request : Request) (w : world) :
  exists w', extends w w' /\
    home request w = (page_of request (frame w (df w)) (NAMES w), w').
Proof.
  unfold home, page_of.
  destruct (filtered_run (form_get (form request) "min_pop" "")
              (form_get (form request) "keyword" "")
              (form_get (form request) "name" "") w) as (w1 & X1 & H).
  destruct (kept _ _ _ _) as [e | t].
  - exists w1. split; [exact X1|]. now apply bind_raises.
  - destruct H as (l & E & F).
    destruct (build_map_run l w1) as (w2 & X2 & E2).
    rewrite F in E2.
    exists w2. split; [now apply extends_trans with w1|].
    rewrite (bind_returns _ _ _ _ _ E).
    destruct (map_of_table t) as [e | [map_html result_count]].
    + now apply bind_raises.
    + rewrite (bind_returns _ _ _ _ _ E2).
      unfold bind, global_NAMES, ret.
      destruct X1 as (_ & Hn1 & _). destruct X2 as (_ & Hn2 & _).
      now rewrite Hn2, Hn1.
Qed.

Lemma handle_run (w : world) (request : Request) :
  exists w', extends w w' /\
    handle w request
    = (match page_of request (frame w (df w)) (NAMES w) with
       | inr r => Page r
       | inl e => InternalServerError e
       end, w').
Proof.
  destruct (home_run request w) as (w' & X & E).
  exists w'. split; [exact X|].
  unfold handle. rewrite E.
  now destruct (page_of _ _ _).
Qed.

End Runs.

(* ================================================================== *)
(** ** The claims about the handler *)

Lemma cluster_markers_add_child (e : element) (m : Map) :
  markers_of (repr_html (add_child e m))
  = markers_of (repr_html m)
    ++ match e with MarkerCluster _ ms => ms | _ => [] end.
Proof.
  unfold markers_of, add_child, children.
  rewrite flat_map_app. cbn [flat_map]. now rewrite app_nil_r.
Qed.

Lemma markers_of_map_with (center : float * float) (ms : list Marker) :
  markers_of (repr_html (map_with center ms)) = ms.
Proof.
  unfold map_with, add_legend, add_base_layers.
  rewrite !cluster_markers_add_child.
  cbv beta iota. cbn [markers_of children flat_map app].
  now rewrite !app_nil_r.
Qed.

Lemma center_of_map_with (center : float * float) (ms : list Marker) :
  center_of (repr_html (map_with center ms)) = center.
Proof. reflexivity. Qed.

Lemma markers_for_rows (rows : list row) (mks : list Marker) :
  markers_for rows = inr mks ->
  Forall2 (fun r mk => marker_of r = inr mk) rows mks.
Proof.
  revert mks. induction rows as [| r rows IH]; intros mks H; cbn in H.
  - injection H as <-. constructor.
  - destruct (marker_of r) as [e | mk] eqn:Em; [discriminate|].
    destruct (markers_for rows) as [e | mks']; [discriminate|].
    injection H as <-. constructor; [exact Em | now apply IH].
Qed.

Lemma markers_for_error (rows : list row) (e : exn) :
  markers_for rows = inl e ->
  e = OverflowError /\
  exists r, In r rows /\ (populasi r = Some PosInf \/ populasi r = Some NegInf).
Proof.
  induction rows as [| r rows IH]; intros H; cbn in H; [discriminate|].
  destruct (marker_of r) as [e' | mk] eqn:Em.
  - injection H as ->. unfold marker_of, popup_text in Em.
    destruct (populasi r) as [[| q |]|] eqn:Ep; cbn in Em; try discriminate;
      injection Em as <-; (split; [reflexivity|]); exists r;
      (split; [now left | tauto]).
  - destruct (markers_for rows) as [e' | mks]; [|discriminate].
    injection H as ->. destruct (IH eq_refl) as (He & r' & Hr & Hp).
    split; [exact He|]. exists r'. split; [now right | exact Hp].
Qed.

Section Outcomes.
Context {rt : Runtime}.

(** What [build_map] makes of a table, case by case. *)
Lemma map_of_table_cases (t : DataFrame) :
  match map_of_table t with
  | inr (h, n) =>
      n = List.length (filter is_located t) /\
      center_of h = center_of_table t /\
      Forall2 (fun r mk => marker_of r = inr mk) (filter is_located t) (markers_of h)
  | inl e =>
      (e = ValueError /\
       t <> [] /\ (mean (map lat t) = None \/ mean (map lon t) = None))
      \/ (e = OverflowError /\
          exists r, In r (filter is_located t)
                    /\ (populasi r = Some PosInf \/ populasi r = Some NegInf))
  end.
Proof.
  unfold map_of_table.
  destruct (notna (fst (center_of_table t)) && notna (snd (center_of_table t)))
    eqn:Hc.
  - destruct (markers_for (filter is_located t)) as [e | mks] eqn:Em.
    + right. now apply markers_for_error.
    + rewrite markers_of_map_with, center_of_map_with.
      split; [reflexivity|]. split; [reflexivity|]. now apply markers_for_rows.
  - left. split; [reflexivity|].
    unfold center_of_table in Hc.
    destruct t as [| r t']; [discriminate Hc|]. split; [discriminate|].
    destruct ((0 <? List.length (r :: t'))%nat && notna_any (map lat (r :: t'))
              && notna_any (map lon (r :: t'))); [|discriminate Hc].
    cbn [fst snd] in Hc. apply andb_false_iff in Hc.
    destruct Hc as [Hc | Hc]; [left | right];
      match goal with |- ?m = None => destruct m; [discriminate Hc | reflexivity] end.
Qed.

Lemma Forall2_length_eq {A B : Type} (R : A -> B -> Prop) (l : list A)
    (l' : list B) :
  Forall2 R l l' -> List.length l = List.length l'.
Proof.
  induction 1; simpl; congruence.
Qed.

End Outcomes.

(** C1 (as the code has it).  For every request for which [build_map]
    returns, the map holds one marker per row of the filtered table that has
    both a latitude and a longitude, in the order of the table, and the
    [result_count] handed to the template is the number of those rows.
    [build_map] returns unless the centre it computes is NaN, which
    [folium.Map] refuses with [ValueError], or a row it places has an
    infinite population, on which [int] raises [OverflowError]; a request
    whose filters raise hands nothing to the template. *)
Theorem markers_and_count_follow_located_rows {rt : Runtime} (w : world)
    (request : Request) :
  match filtered_table w request with
  | inr t =>
      match fst (home request w) with
      | inr (render_template template c) =>
          template = "home.html" /\
          Forall2 (fun r mk => marker_of r = inr mk)
            (filter is_located t) (markers_of (ctx_map_html c)) /\
          ctx_result_count c = List.length (filter is_located t) /\
          ctx_result_count c = List.length (markers_of (ctx_map_html c))
      | inl e =>
          (e = ValueError /\
           t <> [] /\ (mean (map lat t) = None \/ mean (map lon t) = None))
          \/ (e = OverflowError /\
              exists r, In r (filter is_located t)
                        /\ (populasi r = Some PosInf \/ populasi r = Some NegInf))
      end
  | inl e => fst (home request w) = inl e
  end.
Proof.
  rewrite filtered_table_kept.
  destruct (home_run request w) as (w' & _ & E). rewrite E. cbn [fst].
  unfold page_of.
  destruct (kept _ _ _ _) as [e | t]; [reflexivity|].
  pose proof (map_of_table_cases t) as H.
  destruct (map_of_table t) as [e | [h n]]; [exact H|].
  destruct H as (Hn & _ & Hm).
  cbn [ctx_map_html ctx_result_count].
  split; [reflexivity|]. split; [exact Hm|]. split; [exact Hn|].
  rewrite Hn. now apply Forall2_length_eq in Hm.
Qed.

(** C1, as stated, fails on a table with a row that has no coordinates: the
    unfiltered sample has four rows, the map three markers and the count
    is three. *)
Lemma result_count_skips_unlocated_rows :
  @filtered_table ascii_runtime sample_world get = inr sample /\
  result_count_of (fst (@home ascii_runtime get sample_world)) = Some 3%nat /\
  result_count_of (fst (@home ascii_runtime get sample_world))
  <> Some (List.length sample) /\
  option_map (fun h => List.length (markers_of h))
    (map_html_of (fst (@home ascii_runtime get sample_world)))
  <> Some (List.length sample).
Proof.
  repeat split; vm_compute; try reflexivity; discriminate.
Qed.

(** The handler on a table with an infinite population: the row is placed,
    and the popup text raises. *)
Lemma infinite_population_raises :
  fst (@home ascii_runtime get infinite_world) = inl OverflowError.
Proof. vm_compute. reflexivity. Qed.

(** C2 (as the code has it).  When the [name] parameter is not empty, the
    dropdown filter keeps exactly the rows whose name, read as text, equals
    the selected name after case folding of both, in the order of the
    table, and removes all other rows. *)
Theorem dropdown_filter_keeps_casefolded_name {rt : Runtime}
    (selected_name : string) (dff : ref) (w : world) :
  truthy selected_name = true ->
  exists l w',
    filter_name selected_name dff w = (inr l, w') /\
    frame w' l = filter (same_name selected_name) (frame w dff) /\
    forall r,
      In r (frame w' l) <->
      In r (frame w dff) /\
      exists v, name_text r = Some v /\ casefold v = casefold selected_name.
Proof.
  intros Hs.
  destruct (filter_name_frame selected_name dff w) as (l & w' & E & _ & F).
  exists l, w'. unfold keep_name in F. rewrite Hs in F.
  split; [exact E|]. split; [exact F|].
  intros r. rewrite F, filter_In. unfold same_name.
  split; intros [Hin H]; (split; [exact Hin|]).
  - destruct (name_text r) as [v|]; [|discriminate].
    exists v. split; [reflexivity|]. now apply String.eqb_eq.
  - destruct H as (v & -> & Hv). now apply String.eqb_eq.
Qed.

Lemma dropdown_filter_keeps_casefolded_name_witness :
  exists l w',
    @filter_name ascii_runtime "BANDUNG" 0 sample_world = (inr l, w') /\
    frame w' l = [bandung].
Proof.
  destruct (@dropdown_filter_keeps_casefolded_name ascii_runtime "BANDUNG" 0
              sample_world eq_refl) as (l & w' & E & F & _).
  exists l, w'. split; [exact E|]. rewrite F. reflexivity.
Defined.

(** C2, as stated, fails when the selected name differs from the name of a
    row by case only: the row is kept although its name is not the
    selected text. *)
Lemma dropdown_filter_ignores_case :
  @filtered_table ascii_runtime sample_world (post "" "" "BANDUNG") = inr [bandung] /\
  @filtered_table ascii_runtime sample_world (post "" "" "BANDUNG")
  <> inr (filter (exact_name "BANDUNG") sample).
Proof.
  split; [reflexivity | discriminate].
Qed.

(** C3 (the code at the failing inputs).  The keyword is compiled as a
    regular expression: the keyword of one dot keeps every row of the sample
    although no name contains a dot, and the keyword of one opening
    parenthesis raises instead of filtering. *)
Theorem keyword_is_read_as_a_pattern :
  @filtered_table ascii_runtime sample_world (post "" "." "") = inr sample /\
  filter (contains_keyword ".") sample = [] /\
  @filtered_table ascii_runtime sample_world (post "" "(" "") = inl ReError.
Proof.
  repeat split.
Qed.

(** C4 (the code at the failing input).  A request whose keyword is an
    opening parenthesis makes the handler raise: no page is rendered and the
    framework answers with its error page. *)
Theorem home_raises_on_keyword_that_does_not_compile :
  fst (@home ascii_runtime (post "" "(" "") sample_world) = inl ReError /\
  fst (@handle ascii_runtime sample_world (post "" "(" ""))
  = InternalServerError ReError.
Proof.
  split; reflexivity.
Qed.

Lemma filter_min_pop_skipped {rt : Runtime} (s : string) :
  py_int s = None ->
  forall dff w, filter_min_pop s dff w = (inr dff, w).
Proof.
  intros Hp dff w. unfold filter_min_pop, try_except, int_, bind.
  rewrite Hp. now destruct (truthy s).
Qed.

Lemma keep_min_pop_skipped {rt : Runtime} (s : string) (t : DataFrame) :
  py_int s = None -> keep_min_pop s t = t.
Proof.
  intros Hp. unfold keep_min_pop. rewrite Hp. now destruct (truthy s).
Qed.

(** C5 (as the code has it).  When [min_pop] is not empty and [int]
    rejects it, the minimum-population step returns the frame it was given;
    the handler answers as the handler without that step does, with the
    keyword and the dropdown filter applied; and the answer is the one to
    the same request sent with an empty [min_pop] but for the [min_pop]
    argument of the template, which is the text as it was sent. *)
Theorem unparseable_min_pop_is_skipped {rt : Runtime} (request : Request)
    (w : world) :
  truthy (form_get (form request) "min_pop" "") = true ->
  py_int (form_get (form request) "min_pop" "") = None ->
  (forall dff w0,
      filter_min_pop (form_get (form request) "min_pop" "") dff w0 = (inr dff, w0)) /\
  home request w = home_without_min_pop request w /\
  filtered_table w request = filtered_table w (without_min_pop request) /\
  fst (home request w)
  = match fst (home (without_min_pop request) w) with
    | inr r => inr (with_min_pop (form_get (form request) "min_pop" "") r)
    | inl e => inl e
    end.
Proof.
  intros Ht Hp.
  pose proof (filter_min_pop_skipped _ Hp) as Hskip.
  split; [exact Hskip|]. split; [|split].
  - unfold home, home_without_min_pop, filtered.
    unfold bind, global_df, copy, deref, alloc; simpl.
    now rewrite Hskip.
  - rewrite !filtered_table_kept. unfold kept; simpl.
    rewrite (keep_min_pop_skipped _ _ Hp). reflexivity.
  - destruct (home_run request w) as (w1 & _ & E1).
    destruct (home_run (without_min_pop request) w) as (w2 & _ & E2).
    rewrite E1, E2. unfold page_of, kept; simpl.
    rewrite (keep_min_pop_skipped _ _ Hp).
    unfold keep_min_pop at 1; simpl.
    destruct (keep_keyword _ _) as [e | t']; [reflexivity|].
    destruct (map_of_table _) as [e | [h c]]; reflexivity.
Qed.

Lemma unparseable_min_pop_is_skipped_witness :
  @home ascii_runtime (post "abc" "" "Bogor") sample_world
  = @home_without_min_pop ascii_runtime (post "abc" "" "Bogor") sample_world.
Proof.
  exact (proj1 (proj2 (@unparseable_min_pop_is_skipped ascii_runtime
                         (post "abc" "" "Bogor") sample_world eq_refl eq_refl))).
Defined.

(** C5, as stated, fails on the [min_pop] argument of the template: the
    answer to a rejected [min_pop] is not the answer to an empty one, since
    the template gets the rejected text back. *)
Lemma rejected_min_pop_is_echoed :
  fst (@home ascii_runtime (post "abc" "" "") sample_world)
  <> fst (@home ascii_runtime (post "" "" "") sample_world) /\
  option_map (fun r => match r with render_template _ c => ctx_min_pop c end)
    (match fst (@home ascii_runtime (post "abc" "" "") sample_world) with
     | inr r => Some r
     | inl _ => None
     end) = Some "abc".
Proof.
  split; [|vm_compute; reflexivity].
  intros H.
  apply (f_equal (fun x => match x with
                           | inr (render_template _ c) => ctx_min_pop c
                           | inl _ => ""
                           end)) in H.
  vm_compute in H. discriminate H.
Qed.




Lemma kept_active_filters {rt : Runtime} (request : Request) (t : DataFrame) :
  truthy (form_get (form request) "keyword" "") = false
  \/ re_search_ignorecase (form_get (form request) "keyword" "") <> None ->
  kept (form_get (form request) "min_pop" "")
       (form_get (form request) "keyword" "")
       (form_get (form request) "name" "") t
  = inr (apply_filters (active_filters request) t).
Proof.
  intros Hk. unfold kept, keep_keyword, keep_min_pop, keep_name, active_filters.
  destruct (truthy (form_get (form request) "keyword" "")) eqn:Tk.
  - destruct (re_search_ignorecase (form_get (form request) "keyword" ""))
      as [found|]; [| now destruct Hk].
    destruct (truthy (form_get (form request) "min_pop" ""));
      [destruct (py_int (form_get (form request) "min_pop" ""))|];
      destruct (truthy (form_get (form request) "name" "")); reflexivity.
  - destruct (truthy (form_get (form request) "min_pop" ""));
      [destruct (py_int (form_get (form request) "min_pop" ""))|];
      destruct (truthy (form_get (form request) "name" "")); reflexivity.
Qed.

(** C7 (as the code has it).  For a request whose keyword is empty or
    compiles: the minimum-population filter is at work iff [min_pop] is not
    empty and [int] reads it, the keyword filter iff [keyword] is not empty,
    the dropdown filter iff [name] is not empty; the filtered table is the
    rows of the loaded table that satisfy all the filters at work; and
    applying those filters in any order gives the same table. *)
Theorem filtered_table_is_conjunction_in_any_order {rt : Runtime} (w : world)
    (request : Request) :
  truthy (form_get (form request) "keyword" "") = false
  \/ re_search_ignorecase (form_get (form request) "keyword" "") <> None ->
  List.length (active_filters request)
  = ((if truthy (form_get (form request) "min_pop" "")
         && notna (py_int (form_get (form request) "min_pop" ""))
      then 1 else 0)
     + (if truthy (form_get (form request) "keyword" "") then 1 else 0)
     + (if truthy (form_get (form request) "name" "") then 1 else 0))%nat /\
  filtered_table w request
  = inr (filter (satisfies_all (active_filters request)) (frame w (df w))) /\
  forall fs,
    Permutation (active_filters request) fs ->
    filtered_table w request = inr (apply_filters fs (frame w (df w))).
Proof.
  intros Hk. split; [|split].
  - unfold active_filters.
    destruct (truthy (form_get (form request) "keyword" "")) eqn:Tk.
    + destruct (re_search_ignorecase (form_get (form request) "keyword" ""))
        as [found|]; [| now destruct Hk].
      destruct (truthy (form_get (form request) "min_pop" ""));
        [destruct (py_int (form_get (form request) "min_pop" ""))|];
        destruct (truthy (form_get (form request) "name" "")); reflexivity.
    + destruct (truthy (form_get (form request) "min_pop" ""));
        [destruct (py_int (form_get (form request) "min_pop" ""))|];
        destruct (truthy (form_get (form request) "name" "")); reflexivity.
  - rewrite filtered_table_kept, (kept_active_filters _ _ Hk).
    now rewrite apply_filters_satisfies_all.
  - intros fs Hp.
    rewrite filtered_table_kept, (kept_active_filters _ _ Hk).
    now rewrite (apply_filters_perm _ _ _ Hp).
Qed.

Lemma filtered_table_is_conjunction_in_any_order_witness :
  @filtered_table ascii_runtime sample_world (post "1000000" "b" "bogor")
  = inr (apply_filters
           (rev (@active_filters ascii_runtime (post "1000000" "b" "bogor")))
           sample).
Proof.
  destruct (@filtered_table_is_conjunction_in_any_order ascii_runtime
              sample_world (post "1000000" "b" "bogor")) as (_ & _ & H).
  - right. discriminate.
  - apply H, Permutation_rev.
Defined.

(** C7, as stated, fails for a [min_pop] that is not empty but is no
    integer: no minimum-population filter is at work, since the row without
    a population, which every such filter removes, is kept. *)
Lemma unparseable_min_pop_applies_no_filter :
  truthy "abc" = true /\
  @filtered_table ascii_runtime sample_world (post "abc" "" "") = inr sample /\
  ~ exists n,
      @filtered_table ascii_runtime sample_world (post "abc" "" "")
      = inr (filter (@at_least ascii_runtime n) sample).
Proof.
  split; [reflexivity|]. split; [reflexivity|].
  intros [n H].
  change (@filtered_table ascii_runtime sample_world (post "abc" "" ""))
    with (@inr exn DataFrame sample) in H.
  assert (Hin : In garut (filter (@at_least ascii_runtime n) sample)).
  { apply (f_equal (fun x => match x with inr t => In garut t | inl _ => False end)) in H.
    rewrite <- H. simpl. tauto. }
  apply filter_In in Hin. destruct Hin as [_ Hin]. discriminate Hin.
Qed.

(* ================================================================== *)
(** ** Loading the table *)

Section LoadFacts.
Context {rt : Runtime}.

Lemma getcol_found (csv : csv_table) (c : string) :
  (exists s, getcol csv c = inr s) <-> In c (columns csv).
Proof.
  unfold getcol, columns. split.
  - intros [s H].
    destruct (find (fun x => String.eqb (fst x) c) csv) as [x|] eqn:F; [|discriminate].
    apply find_some in F. destruct F as [Hin Heq].
    apply String.eqb_eq in Heq. subst c. now apply in_map.
  - intros Hin. apply in_map_iff in Hin. destruct Hin as (x & Hx & Hin).
    destruct (find (fun x => String.eqb (fst x) c) csv) as [y|] eqn:F.
    + now exists (snd y).
    + apply (find_none _ _ F) in Hin. rewrite Hx, String.eqb_refl in Hin.
      discriminate.
Qed.




Lemma rows_of_columns (names : Series string) (lats lons pops : Series number) :
  List.length lats = List.length names ->
  List.length lons = List.length names ->
  List.length pops = List.length names ->
  map nama (rows_of names lats lons pops) = names /\
  map lat (rows_of names lats lons pops) = lats /\
  map lon (rows_of names lats lons pops) = lons /\
  map populasi (rows_of names lats lons pops) = pops.
Proof.
  revert lats lons pops.
  induction names as [| n names IH]; intros [| a lats] [| o lons] [| p pops];
    simpl; intros H1 H2 H3; try discriminate; try (repeat split; reflexivity).
  destruct (IH lats lons pops) as (E1 & E2 & E3 & E4); try congruence.
  now rewrite E1, E2, E3, E4.
Qed.

Lemma getcol_length (csv : csv_table) (n : nat) (c : string)
    (s : list (option string)) :
  Forall (fun x => List.length (snd x) = n) csv ->
  getcol csv c = inr s -> List.length s = n.
Proof.
  intros Hall H. unfold getcol in H.
  destruct (find (fun x => String.eqb (fst x) c) csv) as [x|] eqn:F; [|discriminate].
  injection H as <-. apply find_some in F. destruct F as [Hin _].
  rewrite Forall_forall in Hall. now apply Hall.
Qed.

(** What a successful load has read. *)
Lemma load_columns (csv : csv_table) (w : world) :
  load csv = inr w ->
  exists names lats lons pops,
    getcol csv "nama" = inr names /\ getcol csv "lat" = inr lats /\
    getcol csv "lon" = inr lons /\ getcol csv "populasi" = inr pops /\
    w = mkWorld [rows_of names (to_numeric_series lats) (to_numeric_series lons)
                   (to_numeric_series pops)]
          0 (sorted (unique [] (present names))).
Proof.
  unfold load. intros H.
  destruct (missing csv); [|discriminate].
  destruct (getcol csv "lat") as [| lats]; [discriminate|].
  destruct (getcol csv "lon") as [| lons]; [discriminate|].
  destruct (getcol csv "populasi") as [| pops]; [discriminate|].
  destruct (getcol csv "nama") as [| names]; [discriminate|].
  injection H as <-. exists names, lats, lons, pops. now repeat split.
Qed.

(** The table of a successful load, column by column. *)
Lemma load_table (csv : csv_table) (w : world) (n : nat) :
  Forall (fun c => List.length (snd c) = n) csv ->
  load csv = inr w ->
  exists names lats lons pops,
    getcol csv "nama" = inr names /\ getcol csv "lat" = inr lats /\
    getcol csv "lon" = inr lons /\ getcol csv "populasi" = inr pops /\
    List.length (frame w (df w)) = n /\
    map nama (frame w (df w)) = names /\
    map lat (frame w (df w))
    = map (fun x => match x with Some v => to_numeric v | None => None end) lats /\
    map lon (frame w (df w))
    = map (fun x => match x with Some v => to_numeric v | None => None end) lons /\
    map populasi (frame w (df w))
    = map (fun x => match x with Some v => to_numeric v | None => None end) pops.
Proof.
  intros Hrect Hload.
  destruct (load_columns csv w Hload) as (names & lats & lons & pops
    & En & Ea & Eo & Ep & ->).
  exists names, lats, lons, pops.
  repeat (split; [assumption|]).
  pose proof (getcol_length _ _ _ _ Hrect En) as Ln.
  pose proof (getcol_length _ _ _ _ Hrect Ea) as La.
  pose proof (getcol_length _ _ _ _ Hrect Eo) as Lo.
  pose proof (getcol_length _ _ _ _ Hrect Ep) as Lp.
  destruct (rows_of_columns names (to_numeric_series lats)
              (to_numeric_series lons) (to_numeric_series pops))
    as (E1 & E2 & E3 & E4);
    try (unfold to_numeric_series; rewrite length_map; congruence).
  change (frame _ _) with (rows_of names (to_numeric_series lats)
                             (to_numeric_series lons) (to_numeric_series pops)).
  split.
  - rewrite <- (length_map nama), E1. exact Ln.
  - now repeat split.
Qed.


End LoadFacts.





(** A loaded world has its table on the heap. *)
Lemma load_names_an_object {rt : Runtime} (csv : csv_table) (w : world) :
  load csv = inr w -> (df w < List.length (heap w))%nat.
Proof.
  unfold load. intros H.
  destruct (missing csv); [|discriminate].
  destruct (getcol csv "lat"); [discriminate|].
  destruct (getcol csv "lon"); [discriminate|].
  destruct (getcol csv "populasi"); [discriminate|].
  destruct (getcol csv "nama"); [discriminate|].
  injection H as <-. simpl. lia.
Qed.

(** The sample table is what the sample file loads as. *)
Lemma load_sample :
  @import_module ascii_runtime (Some sample_file) = inr sample_world /\
  @load ascii_runtime sample_csv = inr sample_world.
Proof. split; vm_compute; reflexivity. Qed.

(** The exception tells the two ways of missing a column apart: a name
    absent whatever the case of the header stops the load at the check of
    line 29, a name present in another case only at the first use of the
    column. *)
Lemma load_error_kinds :
  @load ascii_runtime [("nama", []); ("lat", []); ("lon", [])] = inl ValueError /\
  @load ascii_runtime [("nama", []); ("LAT", []); ("lon", []); ("populasi", [])]
  = inl (KeyError "lat").
Proof.
  split; reflexivity.
Qed.

(* ================================================================== *)
(** ** The centre of the map *)


Lemma present_of_notna_any {A : Type} (s : Series A) :
  notna_any s = true -> present s <> [].
Proof.
  unfold notna_any. induction s as [| [v|] s IH]; simpl.
  - discriminate.
  - discriminate.
  - exact IH.
Qed.

Lemma build_map_returns {rt : Runtime} (dframe : ref) (w w' : world) (h : html)
    (n : nat) :
  build_map dframe w = (inr (h, n), w') ->
  map_of_table (frame w dframe) = inr (h, n).
Proof.
  intros H. destruct (build_map_run dframe w) as (w1 & _ & E). congruence.
Qed.



(** The two ways in which [build_map] does not return: a latitude column
    with both infinities has no mean, and a placed row with an infinite
    population has no popup text. *)
Lemma build_map_errors :
  fst (@build_map ascii_runtime 0
         (mkWorld [[mkRow (Some "A") (Some PosInf) (Some (Finite 0)) None;
                    mkRow (Some "B") (Some NegInf) (Some (Finite 0)) None]] 0 []))
  = inl ValueError /\
  fst (@build_map ascii_runtime 0 infinite_world) = inl OverflowError.
Proof. split; vm_compute; reflexivity. Qed.

(* ================================================================== *)
(** ** Requests and the globals *)

Section Globals.
Context {rt : Runtime}.

Lemma filter_min_pop_ref (s : string) (dff : ref) (w w' : world) (l : ref) :
  filter_min_pop s dff w = (inr l, w') ->
  (l = dff /\ w' = w) \/ (l = List.length (heap w) /\ exists t, w' = extend w t).
Proof.
  unfold filter_min_pop, try_except, int_, bind.
  destruct (truthy s); [destruct (py_int s) as [n|]|]; simpl; intros H;
    injection H as <- <-; try (left; now split).
  right. split; [reflexivity|]. eexists; reflexivity.
Qed.

Lemma filter_keyword_ref (keyword : string) (dff : ref) (w w' : world) (l : ref) :
  filter_keyword keyword dff w = (inr l, w') ->
  (l = dff /\ w' = w) \/ (l = List.length (heap w) /\ exists t, w' = extend w t).
Proof.
  unfold filter_keyword, str_contains, column, bind, deref.
  destruct (truthy keyword);
    [destruct (re_search_ignorecase keyword) as [found|]|]; simpl; intros H;
    try discriminate; injection H as <- <-; try (left; now split).
  right. split; [reflexivity|]. eexists; reflexivity.
Qed.

Lemma filter_name_ref (selected_name : string) (dff : ref) (w w' : world) (l : ref) :
  filter_name selected_name dff w = (inr l, w') ->
  (l = dff /\ w' = w) \/ (l = List.length (heap w) /\ exists t, w' = extend w t).
Proof.
  unfold filter_name, column, bind, deref.
  destruct (truthy selected_name); simpl; intros H;
    injection H as <- <-; try (left; now split).
  right. split; [reflexivity|]. eexists; reflexivity.
Qed.

Lemma length_heap_extend (w : world) (t : DataFrame) :
  List.length (heap (extend w t)) = S (List.length (heap w)).
Proof.
  unfold extend; simpl. rewrite length_app; simpl. lia.
Qed.

(** The frame the filters end with is an object made by the request. *)
Lemma filtered_is_fresh (min_pop_str keyword selected_name : string)
    (w w' : world) (l : ref) :
  filtered min_pop_str keyword selected_name w = (inr l, w') ->
  (List.length (heap w) <= l)%nat.
Proof.
  unfold filtered. intros H.
  assert (Eg : global_df w = (inr (df w), w)) by reflexivity.
  assert (E0 : copy (df w) w
               = (inr (List.length (heap w)), extend w (frame w (df w))))
    by reflexivity.
  rewrite (bind_returns _ _ _ _ _ Eg), (bind_returns _ _ _ _ _ E0) in H.
  set (w0 := extend w (frame w (df w))) in *.
  assert (L0 : List.length (heap w0) = S (List.length (heap w)))
    by apply length_heap_extend.
  unfold bind at 1 in H.
  destruct (filter_min_pop min_pop_str (List.length (heap w)) w0)
    as [[e | l1] w1] eqn:E1; [discriminate|].
  unfold bind at 1 in H.
  destruct (filter_keyword keyword l1 w1) as [[e | l2] w2] eqn:E2; [discriminate|].
  apply filter_min_pop_ref in E1. apply filter_keyword_ref in E2.
  apply filter_name_ref in H.
  assert (B1 : (List.length (heap w) <= l1
                /\ List.length (heap w) < List.length (heap w1))%nat).
  { destruct E1 as [[-> ->] | [-> [t ->]]]; rewrite ?length_heap_extend; lia. }
  assert (B2 : (List.length (heap w) <= l2
                /\ List.length (heap w) < List.length (heap w2))%nat).
  { destruct E2 as [[-> ->] | [-> [t ->]]]; rewrite ?length_heap_extend; lia. }
  destruct H as [[-> _] | [-> _]]; lia.
Qed.

Lemma extends_same_reply (w0 w : world) (request : Request) :
  (df w0 < List.length (heap w0))%nat -> extends w0 w ->
  fst (handle w request) = fst (handle w0 request).
Proof.
  intros Hd X.
  destruct (handle_run w request) as (w1 & _ & E1).
  destruct (handle_run w0 request) as (w2 & _ & E2).
  rewrite E1, E2; simpl.
  pose proof X as (Hdf & Hn & _).
  rewrite Hdf, Hn, (extends_frame _ _ _ X Hd). reflexivity.
Qed.

Lemma serve_run (w0 : world) (requests : list Request) :
  (df w0 < List.length (heap w0))%nat ->
  forall w, extends w0 w ->
  exists w', extends w0 w' /\
    serve w requests = (map (fun request => fst (handle w0 request)) requests, w').
Proof.
  intros Hd. induction requests as [| request rest IH]; intros w X; simpl.
  - exists w. now split.
  - pose proof (extends_same_reply w0 w request Hd X) as Hr.
    destruct (handle_run w request) as (w1 & X1 & E1).
    rewrite E1 in Hr. simpl in Hr. rewrite E1.
    destruct (IH w1 (extends_trans _ _ _ X X1)) as (w' & X' & E').
    exists w'. split; [exact X'|]. rewrite E', Hr. reflexivity.
Qed.

End Globals.

(** C10.  In a world whose global [df] names an object of the heap, after
    any sequence of requests the name [df] and the list [NAMES] are what they
    were and the object of [df] holds the same rows; every reply is the one
    the request gets when it is the first to be served; and the frame that
    the filters of a request work on is an object of its own, not the one
    [df] names. *)
Theorem requests_leave_globals_unchanged {rt : Runtime} (w : world)
    (requests : list Request) :
  (df w < List.length (heap w))%nat ->
  df (snd (serve w requests)) = df w /\
  NAMES (snd (serve w requests)) = NAMES w /\
  frame (snd (serve w requests)) (df w) = frame w (df w) /\
  fst (serve w requests) = map (fun request => fst (handle w request)) requests /\
  forall min_pop_str keyword selected_name l w',
    filtered min_pop_str keyword selected_name w = (inr l, w') ->
    l <> df w /\ frame w' (df w) = frame w (df w).
Proof.
  intros Hd.
  destruct (serve_run w requests Hd w (extends_refl w)) as (w' & X & E).
  rewrite E; simpl.
  pose proof X as (Hdf & Hn & _).
  split; [exact Hdf|]. split; [exact Hn|].
  split; [now apply extends_frame|]. split; [reflexivity|].
  intros min_pop_str keyword selected_name l wf H. split.
  - apply filtered_is_fresh in H. lia.
  - destruct (filtered_run min_pop_str keyword selected_name w) as (w1 & X1 & H1).
    destruct (kept _ _ _ _) as [e | t].
    + congruence.
    + destruct H1 as (l1 & E1 & _).
      assert (w1 = wf) by congruence. subst w1.
      now apply extends_frame.
Qed.

Lemma requests_leave_globals_unchanged_witness :
  frame (snd (@serve ascii_runtime sample_world
                [post "2000000" "" ""; post "" "(" ""; get]))
        (df sample_world)
  = sample.
Proof.
  apply (proj1 (proj2 (proj2
    (@requests_leave_globals_unchanged ascii_runtime sample_world
       [post "2000000" "" ""; post "" "(" ""; get] ltac:(simpl; lia))))).
Defined.

(* ================================================================== *)
(** * Further properties of the program *)

(** ** The rows a request shows *)

Lemma kept_is_filter {rt : Runtime} (min_pop_str keyword selected_name : string)
    (t t' : DataFrame) :
  kept min_pop_str keyword selected_name t = inr t' ->
  exists p, t' = filter p t.
Proof.
  unfold kept, keep_keyword, keep_min_pop, keep_name.
  assert (Hall : t = filter (fun _ => true) t).
  { induction t as [| r t IH]; simpl; [reflexivity | now rewrite <- IH]. }
  intros H.
  destruct (truthy keyword);
    [destruct (re_search_ignorecase keyword) as [found|]; [|discriminate]|];
    destruct (truthy min_pop_str);
    try destruct (py_int min_pop_str) as [n|];
    destruct (truthy selected_name);
    injection H as <-;
    rewrite ?filter_filter_and; eauto.
Qed.

Lemma kept_raises_only_ReError {rt : Runtime}
    (min_pop_str keyword selected_name : string) (t : DataFrame) (e : exn) :
  kept min_pop_str keyword selected_name t = inl e -> e = ReError.
Proof.
  unfold kept, keep_keyword.
  destruct (truthy keyword);
    [destruct (re_search_ignorecase keyword)|]; intros H; now inversion H.
Qed.

Lemma filter_length_le (p : row -> bool) (t : DataFrame) :
  (List.length (filter p t) <= List.length t)%nat.
Proof.
  induction t as [| r t IH]; simpl; [lia|].
  destruct (p r); simpl; lia.
Qed.


(** X2.  A request that sends none of the three fields, or sends them
    empty, is answered from the whole table: the page is the one [build_map]
    makes of the global table itself, with empty texts in the form and the
    list [NAMES]. *)
Theorem request_without_filters_shows_the_table {rt : Runtime} (w : world)
    (request : Request) :
  form_get (form request) "min_pop" "" = "" ->
  form_get (form request) "keyword" "" = "" ->
  form_get (form request) "name" "" = "" ->
  filtered_table w request = inr (frame w (df w)) /\
  fst (home request w)
  = match fst (build_map (df w) w) with
    | inr (map_html, result_count) =>
        inr (render_template "home.html"
               (mkContext map_html "" "" (NAMES w) "" result_count))
    | inl e => inl e
    end.
Proof.
  intros Hm Hk Hn. split.
  - rewrite filtered_table_kept, Hm, Hk, Hn. reflexivity.
  - destruct (home_run request w) as (w' & _ & E). rewrite E.
    destruct (build_map_run (df w) w) as (w1 & _ & E1). rewrite E1.
    unfold page_of. rewrite Hm, Hk, Hn. reflexivity.
Qed.

Lemma request_without_filters_shows_the_table_witness :
  @filtered_table ascii_runtime sample_world get = inr sample.
Proof.
  apply (proj1 (@request_without_filters_shows_the_table ascii_runtime
                  sample_world get eq_refl eq_refl eq_refl)).
Defined.

Lemma at_least_mono {rt : Runtime} (n m : Z) (r : row) :
  (n <= m)%Z -> at_least m r = true -> at_least n r = true.
Proof.
  intros Hnm. unfold at_least.
  destruct (populasi r) as [v|]; [|discriminate].
  apply number_le_trans. now apply operand_of_int_mono.
Qed.

(** X3.  Raising the minimum population never brings a row back: for two
    thresholds [n <= m] the rows kept with [m] are among those kept with [n],
    and filtering with [m] what was kept with [n] gives what [m] keeps of
    the whole frame. *)
Theorem higher_min_pop_keeps_fewer_rows {rt : Runtime} (s1 s2 : string)
    (n m : Z) (dff : ref) (w : world) :
  truthy s1 = true -> truthy s2 = true ->
  py_int s1 = Some n -> py_int s2 = Some m -> (n <= m)%Z ->
  exists l1 w1 l2 w2 l3 w3,
    filter_min_pop s1 dff w = (inr l1, w1) /\
    filter_min_pop s2 dff w = (inr l2, w2) /\
    filter_min_pop s2 l1 w1 = (inr l3, w3) /\
    incl (frame w2 l2) (frame w1 l1) /\
    (List.length (frame w2 l2) <= List.length (frame w1 l1))%nat /\
    frame w3 l3 = frame w2 l2.
Proof.
  intros T1 T2 P1 P2 Hnm.
  destruct (filter_min_pop_frame s1 dff w) as (l1 & w1 & E1 & _ & F1).
  destruct (filter_min_pop_frame s2 dff w) as (l2 & w2 & E2 & _ & F2).
  destruct (filter_min_pop_frame s2 l1 w1) as (l3 & w3 & E3 & _ & F3).
  unfold keep_min_pop in F1, F2, F3.
  rewrite T1, P1 in F1. rewrite T2, P2 in F2, F3.
  exists l1, w1, l2, w2, l3, w3.
  assert (Hsame : filter (at_least m) (filter (at_least n) (frame w dff))
                  = filter (at_least m) (frame w dff)).
  { rewrite filter_filter_and. apply filter_ext_in. intros r _.
    destruct (at_least m r) eqn:Hm; [|apply andb_false_r].
    now rewrite (at_least_mono n m r Hnm Hm). }
  repeat split; try assumption.
  - rewrite F1, F2. intros r Hr. apply filter_In in Hr. destruct Hr as [Hin Hm].
    apply filter_In. split; [exact Hin|]. now apply (at_least_mono n m).
  - rewrite F2, <- Hsame, F1. apply filter_length_le.
  - now rewrite F3, F1, F2.
Qed.

Lemma higher_min_pop_keeps_fewer_rows_witness :
  exists l1 w1 l2 w2,
    @filter_min_pop ascii_runtime "1000000" 0 sample_world = (inr l1, w1) /\
    @filter_min_pop ascii_runtime "2000000" 0 sample_world = (inr l2, w2) /\
    incl (frame w2 l2) (frame w1 l1).
Proof.
  destruct (@higher_min_pop_keeps_fewer_rows ascii_runtime "1000000" "2000000"
              1000000 2000000 0 sample_world eq_refl eq_refl eq_refl eq_refl)
    as (l1 & w1 & l2 & w2 & _ & _ & E1 & E2 & _ & H & _).
  - discriminate.
  - exists l1, w1, l2, w2. now repeat split.
Defined.

(** ** The markers *)

(** X4.  No marker is placed at a missing coordinate: on a map that
    [build_map] returns, every marker belongs to a row of the frame that has
    a latitude and a longitude, sits at them, and shows the popup text and
    the name of that row. *)
Theorem markers_sit_at_present_coordinates {rt : Runtime} (dframe : ref)
    (w w' : world) (h : html) (n : nat) :
  build_map dframe w = (inr (h, n), w') ->
  forall mk,
    In mk (markers_of h) ->
    exists r a o,
      In r (frame w dframe) /\ lat r = Some a /\ lon r = Some o /\
      marker_location mk = (Some a, Some o) /\
      popup_text r = inr (popup mk) /\ tooltip mk = nama r.
Proof.
  intros H. apply build_map_returns in H.
  pose proof (map_of_table_cases (frame w dframe)) as Hc.
  rewrite H in Hc. destruct Hc as (_ & _ & Hm).
  revert Hm. generalize (markers_of h) as mks.
  assert (Hin : incl (filter is_located (frame w dframe))
                  (filter is_located (frame w dframe))) by apply incl_refl.
  revert Hin.
  generalize (filter is_located (frame w dframe)) at 1 3 as rows.
  intros rows Hin mks Hm. induction Hm as [| r mk rows mks Hr _ IH].
  - intros mk [].
  - intros mk' [<- | Hmk].
    + assert (Hloc : In r (filter is_located (frame w dframe)))
        by (apply Hin; now left).
      apply filter_In in Hloc. destruct Hloc as [Hrow Hloc].
      unfold is_located in Hloc. apply andb_prop in Hloc.
      destruct Hloc as [Ha Ho].
      destruct (lat r) as [a|] eqn:Ea; [|discriminate].
      destruct (lon r) as [o|] eqn:Eo; [|discriminate].
      exists r, a, o. unfold marker_of in Hr.
      destruct (popup_text r) as [e | text]; [discriminate|].
      injection Hr as <-. cbn [marker_location popup tooltip].
      rewrite Ea, Eo. now repeat split.
    + apply IH; [|exact Hmk]. intros x Hx. apply Hin. now right.
Qed.

Lemma markers_sit_at_present_coordinates_witness :
  exists h n w',
    @build_map ascii_runtime 0 sample_world = (inr (h, n), w') /\
    forall mk,
      In mk (markers_of h) ->
      exists r, In r sample /\ tooltip mk = nama r /\ notna (lat r) = true.
Proof.
  destruct (@build_map_run ascii_runtime 0 sample_world) as (w' & _ & E).
  destruct (@map_of_table ascii_runtime (frame sample_world 0)) as [e | [h n]] eqn:Em;
    [vm_compute in Em; discriminate Em|].
  exists h, n, w'. split; [exact E|].
  intros mk Hmk.
  destruct (@markers_sit_at_present_coordinates ascii_runtime 0 sample_world w'
              h n E mk Hmk) as (r & a & o & Hr & Ha & _ & _ & _ & Ht).
  exists r. split; [exact Hr|]. split; [exact Ht|]. now rewrite Ha.
Defined.

Lemma filter_all (p : row -> bool) (t : DataFrame) :
  (forall r, In r t -> p r = true) -> filter p t = t.
Proof.
  induction t as [| r t IH]; intros H; simpl; [reflexivity|].
  rewrite (H r (or_introl eq_refl)), IH; [reflexivity|].
  intros r' Hr'. apply H. now right.
Qed.

(** X5.  When every row of the loaded table has both coordinates, the count
    shown on a rendered page is the number of rows that pass the filters of
    the request, and so is the number of markers; a request that is not
    rendered raised the error of its filters or of [build_map]. *)
Theorem count_is_row_count_when_all_located {rt : Runtime} (w : world)
    (request : Request) :
  (forall r, In r (frame w (df w)) -> notna (lat r) && notna (lon r) = true) ->
  match filtered_table w request with
  | inr t =>
      match fst (home request w) with
      | inr page =>
          result_count_of (inr page) = Some (List.length t) /\
          option_map (fun h => List.length (markers_of h))
            (map_html_of (inr page)) = Some (List.length t)
      | inl e => e = ValueError \/ e = OverflowError
      end
  | inl e => fst (home request w) = inl e
  end.
Proof.
  intros Hall.
  rewrite filtered_table_kept.
  destruct (home_run request w) as (w' & _ & E). rewrite E. cbn [fst].
  unfold page_of.
  destruct (kept _ _ _ _) as [e | t] eqn:K; [reflexivity|].
  apply kept_is_filter in K. destruct K as [p ->].
  pose proof (map_of_table_cases (filter p (frame w (df w)))) as H.
  destruct (map_of_table _) as [e | [h n]].
  - destruct H as [(-> & _) | (-> & _)]; [now left | now right].
  - destruct H as (-> & _ & Hm). apply Forall2_length_eq in Hm.
    cbn [result_count_of map_html_of ctx_result_count ctx_map_html option_map].
    rewrite <- Hm. rewrite (filter_all is_located).
    + now split.
    + intros r Hr. apply filter_In in Hr. apply Hall, Hr.
Qed.

Lemma count_is_row_count_when_all_located_witness :
  result_count_of (fst (@home ascii_runtime (post "" "bo" "") located_world))
  = Some 1%nat.
Proof.
  pose proof (@count_is_row_count_when_all_located ascii_runtime located_world
                (post "" "bo" "")) as H.
  change (@filtered_table ascii_runtime located_world (post "" "bo" ""))
    with (@inr exn DataFrame [bogor]) in H.
  destruct (fst (@home ascii_runtime (post "" "bo" "") located_world))
    as [e | page] eqn:Eh; [vm_compute in Eh; discriminate Eh|].
  apply H.
  intros r [<- | [<- | []]]; reflexivity.
Defined.

(** X6.  With an empty table every page that is rendered shows a map
    without markers, a count of zero and the fallback centre, whatever the
    request asks for. *)
Theorem empty_table_gives_empty_map {rt : Runtime} (w : world)
    (request : Request) :
  frame w (df w) = [] ->
  filtered_table w request = inr [] /\
  result_count_of (fst (home request w)) = Some 0%nat /\
  option_map markers_of (map_html_of (fst (home request w))) = Some [] /\
  option_map center_of (map_html_of (fst (home request w)))
  = Some (Some (Finite (-65 # 10)), Some (Finite (107 # 1)))
  \/ filtered_table w request = inl ReError /\
     fst (home request w) = inl ReError.
Proof.
  intros Hempty.
  rewrite filtered_table_kept.
  destruct (home_run request w) as (w' & _ & E). rewrite E.
  unfold page_of. rewrite Hempty.
  destruct (kept _ _ _ []) as [e | t] eqn:K.
  - right. apply kept_raises_only_ReError in K. subst e. now split.
  - left. apply kept_is_filter in K. destruct K as [p ->].
    cbn [filter]. unfold map_of_table, center_of_table.
    cbn [List.length Nat.ltb Nat.leb andb fallback_center fst snd notna filter
         markers_for result_count_of map_html_of ctx_result_count ctx_map_html
         option_map].
    rewrite markers_of_map_with, center_of_map_with. repeat split.
Qed.

Lemma empty_table_gives_empty_map_witness :
  @filtered_table ascii_runtime (mkWorld [[]] 0 []) (post "10" "x" "y") = inr []
  \/ @filtered_table ascii_runtime (mkWorld [[]] 0 []) (post "10" "x" "y")
     = inl ReError.
Proof.
  destruct (@empty_table_gives_empty_map ascii_runtime (mkWorld [[]] 0 [])
              (post "10" "x" "y") eq_refl) as [(H & _) | (H & _)].
  - now left.
  - now right.
Defined.

(** ** The base maps *)

(** X7.  [add_base_layers] leaves the centre, the zoom and what the map
    already holds as they are and adds six tile layers after them; the six
    have different names, all are offered in the layer control, and each one
    given by a URL template carries its attribution. *)
Theorem base_layers_are_named_and_attributed (m : Map) :
  location (add_base_layers m) = location m /\
  zoom_start (add_base_layers m) = zoom_start m /\
  control_scale (add_base_layers m) = control_scale m /\
  exists layers,
    children (add_base_layers m) = children m ++ layers /\
    List.length (present (map tile_layer_name layers)) = 6%nat /\
    List.length layers = 6%nat /\
    NoDup (present (map tile_layer_name layers)) /\
    forallb attributed layers = true /\
    forallb shown_in_control layers = true.
Proof.
  unfold add_base_layers, add_child.
  cbn [location zoom_start control_scale children].
  repeat (split; [reflexivity|]).
  rewrite <- !app_assoc. cbn [app].
  eexists. split; [reflexivity|].
  cbn [map tile_layer_name present List.length].
  repeat (split; [reflexivity|]).
  split; [|split; vm_compute; reflexivity].
  repeat constructor; cbn [In]; intuition discriminate.
Qed.

(** ** Loading: the errors and the list of names *)

(** X8.  The errors of the import.  An exception of [pd.read_csv] is the
    exception of the import.  Once the file is read, [ValueError] is raised
    exactly when one of the four names is absent from the lowered header;
    any other error is the [KeyError] of a required column that the header
    has in another case only, so that the check of line 29 lets it pass and
    its first use fails. *)
Theorem load_errors_tell_what_is_missing {rt : Runtime} (file : option string) :
  match read_csv file with
  | inl e => import_module file = inl e
  | inr csv =>
      (import_module file = inl ValueError <->
       exists c, In c required /\ ~ In c (map lower (columns csv))) /\
      (forall e,
          import_module file = inl e ->
          e = ValueError \/
          exists c, e = KeyError c /\ In c required /\ ~ In c (columns csv)
                    /\ In c (map lower (columns csv)))
  end.
Proof.
  unfold import_module. destruct (read_csv file) as [e0 | csv]; [reflexivity|].
  assert (Hmiss : forall c, In c (missing csv) <->
                    In c required /\ ~ In c (map lower (columns csv))).
  { intros c. unfold missing. rewrite filter_In, negb_true_iff.
    split; intros [Hc H]; (split; [exact Hc|]).
    - intros Hin.
      assert (X : existsb (String.eqb c) (map lower (columns csv)) = true).
      { apply existsb_exists. exists c. split; [exact Hin | apply String.eqb_refl]. }
      congruence.
    - destruct (existsb (String.eqb c) (map lower (columns csv))) eqn:X;
        [|reflexivity].
      apply existsb_exists in X. destruct X as (x & Hx & Heq).
      apply String.eqb_eq in Heq. subst x. contradiction. }
  assert (Hkey : forall c e, getcol csv c = inl e ->
                   e = KeyError c /\ ~ In c (columns csv)).
  { intros c e H. split.
    - unfold getcol in H. destruct (find _ csv); now inversion H.
    - intros Hin. apply getcol_found in Hin. destruct Hin as [s Hs]. congruence. }
  assert (Hlow : missing csv = [] -> forall c, In c required ->
                   In c (map lower (columns csv))).
  { intros Hnil c Hc.
    destruct (in_dec string_dec c (map lower (columns csv))) as [Hin | Hnin];
      [exact Hin|].
    assert (X : In c (missing csv)) by (apply Hmiss; now split).
    rewrite Hnil in X. contradiction. }
  split.
  - unfold load. split.
    + intros H. destruct (missing csv) as [| c rest] eqn:M.
      * destruct (getcol csv "lat") as [e1|] eqn:E1;
          [apply Hkey in E1; destruct E1 as [-> _]; discriminate|].
        destruct (getcol csv "lon") as [e2|] eqn:E2;
          [apply Hkey in E2; destruct E2 as [-> _]; discriminate|].
        destruct (getcol csv "populasi") as [e3|] eqn:E3;
          [apply Hkey in E3; destruct E3 as [-> _]; discriminate|].
        destruct (getcol csv "nama") as [e4|] eqn:E4;
          [apply Hkey in E4; destruct E4 as [-> _]; discriminate|].
        discriminate.
      * exists c. apply Hmiss. now left.
    + intros (c & Hc). apply Hmiss in Hc.
      destruct (missing csv); [contradiction | reflexivity].
  - intros e H. unfold load in H.
    destruct (missing csv) as [| c rest] eqn:M; [|left; now inversion H].
    right. pose proof (Hlow eq_refl) as Hl.
    destruct (getcol csv "lat") as [e1|] eqn:E1.
    { inversion H; subst e1. apply Hkey in E1. destruct E1 as [-> Hn].
      exists "lat". repeat split; [| exact Hn |]; [|apply Hl]; simpl; tauto. }
    destruct (getcol csv "lon") as [e2|] eqn:E2.
    { inversion H; subst e2. apply Hkey in E2. destruct E2 as [-> Hn].
      exists "lon". repeat split; [| exact Hn |]; [|apply Hl]; simpl; tauto. }
    destruct (getcol csv "populasi") as [e3|] eqn:E3.
    { inversion H; subst e3. apply Hkey in E3. destruct E3 as [-> Hn].
      exists "populasi". repeat split; [| exact Hn |]; [|apply Hl]; simpl; tauto. }
    destruct (getcol csv "nama") as [e4|] eqn:E4.
    { inversion H; subst e4. apply Hkey in E4. destruct E4 as [-> Hn].
      exists "nama". repeat split; [| exact Hn |]; [|apply Hl]; simpl; tauto. }
    discriminate.
Qed.

Lemma unique_In (seen l : list string) (x : string) :
  In x (unique seen l) <-> In x l /\ ~ In x seen.
Proof.
  revert seen. induction l as [| y l IH]; intros seen; simpl.
  - tauto.
  - destruct (existsb (String.eqb y) seen) eqn:E.
    + apply existsb_exists in E. destruct E as (z & Hz & Hyz).
      apply String.eqb_eq in Hyz. subst z.
      rewrite IH. split.
      * intros [H1 H2]. tauto.
      * intros [[-> | H1] H2]; [contradiction | tauto].
    + assert (Hy : ~ In y seen).
      { intros Hin. assert (X : existsb (String.eqb y) seen = true).
        { apply existsb_exists. exists y. split; [exact Hin | apply String.eqb_refl]. }
        congruence. }
      simpl. rewrite IH. simpl. split.
      * intros [-> | [H1 H2]]; [tauto|]. split; [tauto|]. intros H. apply H2. now right.
      * intros [[-> | H1] H2]; [now left|].
        destruct (string_dec y x) as [-> | Hne]; [now left|].
        right. split; [exact H1|]. intros [H | H]; [contradiction | contradiction].
Qed.

Lemma unique_NoDup (seen l : list string) : NoDup (unique seen l).
Proof.
  revert seen. induction l as [| y l IH]; intros seen; simpl.
  - constructor.
  - destruct (existsb (String.eqb y) seen); [apply IH|].
    constructor; [|apply IH].
    rewrite unique_In. intros [_ H]. apply H. now left.
Qed.

Lemma insert_sorted_In (x y : string) (l : list string) :
  In y (insert_sorted x l) <-> y = x \/ In y l.
Proof.
  induction l as [| z l IH]; simpl.
  - split; [intros [<- | []]; now left | intros [-> | []]; now left].
  - destruct (String.leb x z); simpl.
    + split; [intros [<- | H]; [now left | now right]
             | intros [-> | H]; [now left | now right]].
    + rewrite IH. split.
      * intros [H | [H | H]]; [right; now left | now left | right; now right].
      * intros [H | [H | H]]; [right; now left | now left | right; now right].
Qed.

Lemma insert_sorted_NoDup (x : string) (l : list string) :
  ~ In x l -> NoDup l -> NoDup (insert_sorted x l).
Proof.
  induction l as [| z l IH]; intros Hx Hl; simpl.
  - constructor; [exact Hx | constructor].
  - destruct (String.leb x z).
    + now constructor.
    + inversion Hl as [| z' l' Hz Hl']; subst.
      constructor.
      * rewrite insert_sorted_In. intros [-> | H]; [apply Hx; now left | contradiction].
      * apply IH; [|exact Hl']. intros H. apply Hx. now right.
Qed.

Lemma insert_sorted_ascending (x : string) (l : list string) :
  ascending l = true -> ascending (insert_sorted x l) = true.
Proof.
  induction l as [| z l IH]; intros Hl; [reflexivity|].
  cbn [insert_sorted]. destruct (String.leb x z) eqn:Exz.
  - cbn [ascending]. now rewrite Exz.
  - assert (Hzx : String.leb z x = true).
    { destruct (String.leb_total x z) as [H | H]; [congruence | exact H]. }
    destruct l as [| u l'].
    + cbn. now rewrite Hzx.
    + cbn [ascending] in Hl. apply andb_prop in Hl. destruct Hl as [Hzu Hl].
      specialize (IH Hl). cbn [insert_sorted] in IH |- *.
      destruct (String.leb x u).
      * cbn [ascending] in IH |- *. now rewrite Hzx, IH.
      * cbn [ascending] in IH |- *. now rewrite Hzu, IH.
Qed.

Lemma sorted_facts (l : list string) :
  NoDup l ->
  ascending (sorted l) = true /\ NoDup (sorted l)
  /\ forall x, In x (sorted l) <-> In x l.
Proof.
  unfold sorted. induction l as [| y l IH]; intros Hl; simpl.
  - repeat split; try constructor; tauto.
  - inversion Hl as [| y' l' Hy Hl']; subst.
    destruct (IH Hl') as (Ha & Hn & Hi).
    split; [now apply insert_sorted_ascending|]. split.
    + apply insert_sorted_NoDup; [|exact Hn]. now rewrite Hi.
    + intros x. rewrite insert_sorted_In, Hi. split; intros [H | H]; auto.
Qed.

Lemma present_In {A : Type} (s : Series A) (x : A) :
  In x (present s) <-> In (Some x) s.
Proof.
  induction s as [| [v|] s IH]; simpl.
  - tauto.
  - rewrite IH. split; intros [H | H]; auto; [left; congruence | left; congruence].
  - rewrite IH. split; [auto | intros [H | H]; [discriminate | exact H]].
Qed.

(** X9.  The list [NAMES] of a loaded table holds the names of the file,
    the missing ones left out, each one once and in ascending order. *)
Theorem names_are_the_sorted_names_of_the_table {rt : Runtime} (csv : csv_table)
    (w : world) :
  load csv = inr w ->
  exists names,
    getcol csv "nama" = inr names /\
    (forall s, In s (NAMES w) <-> In (Some s) names) /\
    NoDup (NAMES w) /\
    ascending (NAMES w) = true.
Proof.
  unfold load. intros H.
  destruct (missing csv); [|discriminate].
  destruct (getcol csv "lat"); [discriminate|].
  destruct (getcol csv "lon"); [discriminate|].
  destruct (getcol csv "populasi"); [discriminate|].
  destruct (getcol csv "nama") as [| names]; [discriminate|].
  injection H as <-. exists names. split; [reflexivity|].
  cbn [NAMES].
  destruct (sorted_facts (unique [] (present names)) (unique_NoDup [] _))
    as (Ha & Hn & Hi).
  split; [|now split].
  intros s. rewrite Hi, unique_In, present_In. simpl. tauto.
Qed.

Lemma names_are_the_sorted_names_of_the_table_witness :
  NoDup (NAMES sample_world) /\ ascending (NAMES sample_world) = true.
Proof.
  destruct (@names_are_the_sorted_names_of_the_table ascii_runtime sample_csv
              sample_world eq_refl) as (names & _ & _ & Hn & Ha).
  now split.
Defined.

Lemma names_facts_of_load {rt : Runtime} (csv : csv_table) (w : world) :
  load csv = inr w ->
  exists names lats lons pops,
    getcol csv "nama" = inr names /\ getcol csv "lat" = inr lats /\
    getcol csv "lon" = inr lons /\ getcol csv "populasi" = inr pops /\
    frame w (df w)
    = rows_of names (to_numeric_series lats) (to_numeric_series lons)
        (to_numeric_series pops) /\
    forall s, In s (NAMES w) -> In (Some s) names.
Proof.
  intros H.
  destruct (load_columns csv w H) as (names & lats & lons & pops
    & En & Ea & Eo & Ep & ->).
  exists names, lats, lons, pops.
  repeat (split; [assumption|]). split; [reflexivity|].
  cbn [NAMES]. intros s Hs.
  destruct (sorted_facts (unique [] (present names)) (unique_NoDup [] _))
    as (_ & _ & Hi).
  apply Hi, unique_In in Hs. now apply present_In.
Qed.

(** X10.  Every name offered by the dropdown selects at least one row: for
    a file whose columns have the same length, a request that sends a name
    of [NAMES] and no other filter gets a table that holds a row of that
    name. *)
Theorem every_dropdown_name_selects_a_row {rt : Runtime} (csv : csv_table)
    (w : world) (request : Request) :
  rectangular csv ->
  load csv = inr w ->
  form_get (form request) "min_pop" "" = "" ->
  form_get (form request) "keyword" "" = "" ->
  In (form_get (form request) "name" "") (NAMES w) ->
  exists t r,
    filtered_table w request = inr t /\ In r t /\
    nama r = Some (form_get (form request) "name" "").
Proof.
  intros [n Hrect] Hload Hm Hk Hin.
  destruct (names_facts_of_load csv w Hload) as (names & lats & lons & pops
    & En & Ea & Eo & Ep & Hframe & Hnames).
  set (s := form_get (form request) "name" "") in *.
  apply Hnames in Hin.
  assert (Hmap : map nama (frame w (df w)) = names).
  { rewrite Hframe. unfold to_numeric_series.
    apply rows_of_columns; rewrite length_map;
      rewrite (getcol_length _ _ _ _ Hrect En);
      eauto using getcol_length. }
  rewrite <- Hmap in Hin. apply in_map_iff in Hin.
  destruct Hin as (r & Hr & Hin).
  rewrite filtered_table_kept, Hm, Hk. fold s.
  unfold kept, keep_keyword, keep_min_pop, keep_name. cbn [truthy String.eqb negb].
  assert (Hsame : same_name s r = true).
  { unfold same_name, name_text. rewrite Hr. apply String.eqb_refl. }
  destruct (truthy s).
  - exists (filter (same_name s) (frame w (df w))), r.
    split; [reflexivity|]. split; [|exact Hr].
    apply filter_In. now split.
  - exists (frame w (df w)), r. now repeat split.
Qed.

Lemma every_dropdown_name_selects_a_row_witness :
  exists t r,
    @filtered_table ascii_runtime sample_world (post "" "" "Bogor") = inr t /\
    In r t /\ nama r = Some "Bogor".
Proof.
  apply (@every_dropdown_name_selects_a_row ascii_runtime sample_csv sample_world
           (post "" "" "Bogor")).
  - exists 4%nat. repeat constructor.
  - vm_compute. reflexivity.
  - reflexivity.
  - reflexivity.
  - simpl. tauto.
Defined.

(** ** The keyword filter *)

(** X12.  The keyword filter as the code has it.  An empty keyword returns
    the frame it was given.  A keyword that compiles keeps exactly the rows
    whose name, read as text by [astype(str)], is found by the search of the
    pattern; a row without a name is kept only if the text that stands for a
    missing value is found.  A keyword that does not compile raises and
    creates no frame. *)
Theorem keyword_filter_keeps_rows_the_pattern_finds {rt : Runtime}
    (keyword : string) (dff : ref) (w : world) :
  (truthy keyword = false -> filter_keyword keyword dff w = (inr dff, w)) /\
  (truthy keyword = true -> re_search_ignorecase keyword = None ->
   filter_keyword keyword dff w = (inl ReError, w)) /\
  (forall found,
      truthy keyword = true -> re_search_ignorecase keyword = Some found ->
      exists l w',
        filter_keyword keyword dff w = (inr l, w') /\
        frame w' l = filter (name_matches found) (frame w dff) /\
        (forall r,
            In r (frame w' l) <->
            In r (frame w dff) /\ exists v, name_text r = Some v /\ found v = true) /\
        (forall r,
            nama r = None ->
            (In r (frame w' l) <->
             In r (frame w dff) /\ exists v, astype_str_na = Some v /\ found v = true))).
Proof.
  pose proof (filter_keyword_frame keyword dff w) as H.
  unfold keep_keyword in H.
  split; [|split].
  - intros T. unfold filter_keyword. now rewrite T.
  - intros T C. now rewrite T, C in H.
  - intros found T C. rewrite T, C in H.
    destruct H as (l & w' & E & _ & F).
    exists l, w'. split; [exact E|]. split; [exact F|].
    assert (Hin : forall r,
               In r (frame w' l) <->
               In r (frame w dff) /\ exists v, name_text r = Some v /\ found v = true).
    { intros r. rewrite F, filter_In. unfold name_matches.
      split; intros [Hr Hm]; (split; [exact Hr|]).
      - destruct (name_text r) as [v|]; [now exists v | discriminate].
      - destruct Hm as (v & -> & Hv). exact Hv. }
    split; [exact Hin|].
    intros r Hr. rewrite Hin. unfold name_text. rewrite Hr. reflexivity.
Qed.

(** ** Keywords without pattern signs, on the ASCII runtime *)

Lemma match_prefix_Alt (a b : regex) (s : string) :
  match_prefix (Alt a b) s = match_prefix a s || match_prefix b s.
Proof.
  revert a b. induction s as [| c s IH]; intros a b; cbn [match_prefix nullable deriv].
  - now rewrite !orb_false_r.
  - rewrite IH.
    destruct (nullable a), (nullable b), (match_prefix (deriv c a) s),
      (match_prefix (deriv c b) s); reflexivity.
Qed.

Lemma match_prefix_Cat_Void (r : regex) (s : string) :
  match_prefix (Cat Void r) s = false.
Proof.
  induction s as [| c s IH]; cbn [match_prefix nullable deriv andb orb].
  - reflexivity.
  - exact IH.
Qed.

Lemma match_prefix_Cat_Eps (r : regex) (s : string) :
  match_prefix (Cat Eps r) s = match_prefix r s.
Proof.
  destruct s as [| c s]; cbn [match_prefix nullable deriv andb].
  - reflexivity.
  - now rewrite match_prefix_Alt, match_prefix_Cat_Void.
Qed.

Lemma match_prefix_literal (p s : string) :
  match_prefix (literal p) s = is_prefix (ascii_lower p) (ascii_lower s).
Proof.
  revert s. induction p as [| d p IH]; intros s.
  - destruct s; reflexivity.
  - destruct s as [| c s]; [reflexivity|].
    cbn [literal match_prefix nullable deriv andb orb ascii_lower is_prefix].
    rewrite (Ascii.eqb_sym (lower_ascii d)).
    destruct (Ascii.eqb (lower_ascii c) (lower_ascii d)).
    + now rewrite match_prefix_Cat_Eps, IH.
    + apply match_prefix_Cat_Void.
Qed.

Lemma search_literal (p s : string) :
  search (literal p) s = is_substring (ascii_lower p) (ascii_lower s).
Proof.
  induction s as [| c s IH]; cbn [search is_substring ascii_lower].
  - now rewrite (match_prefix_literal p "").
  - now rewrite (match_prefix_literal p (String c s)), IH.
Qed.

Lemma concat_items_app (items : list regex) (tail : regex) :
  fold_left (fun acc r => Cat r acc) items tail
  = fold_right (fun r acc => Cat r acc) tail (rev items).
Proof.
  revert tail. induction items as [| r items IH]; intros tail; simpl.
  - reflexivity.
  - rewrite IH, fold_right_app. reflexivity.
Qed.

Lemma parse_char_plain (c : ascii) (gs : list group) (g : group) (l : last_item) :
  plain_char c = true ->
  parse_char c (mkParser gs g l false)
  = inl (mkParser gs (fst g, Chr c :: snd g) Atom false).
Proof.
  unfold plain_char, parse_char, push_item. cbn [escaped enclosing current last].
  intros H. apply andb_prop in H. destruct H as [_ H].
  apply negb_true_iff in H.
  repeat (apply orb_false_elim in H; destruct H as [H ?]).
  now repeat match goal with E : _ = false |- _ => rewrite E; clear E end.
Qed.

Lemma parse_plain (s : string) (items : list regex) (l : last_item) :
  plain_keyword s = true ->
  parse s (mkParser [] ([], items) l false)
  = Compiled (fold_right (fun r acc => Cat r acc) (literal s) (rev items)).
Proof.
  revert items l. induction s as [| c s IH]; intros items l H.
  - cbn [parse escaped enclosing current literal].
    unfold close_group, concat_items. cbn [fst snd fold_right].
    now rewrite concat_items_app.
  - cbn [plain_keyword] in H. apply andb_prop in H. destruct H as [Hc Hs].
    cbn [parse]. rewrite (parse_char_plain c [] ([], items) l Hc).
    cbn [fst snd]. rewrite (IH _ _ Hs).
    cbn [rev literal]. now rewrite fold_right_app.
Qed.

Lemma ascii_search_plain (keyword : string) :
  plain_keyword keyword = true ->
  ascii_search keyword = Some (search (literal keyword)).
Proof.
  intros H. unfold ascii_search, re_compile.
  now rewrite (parse_plain keyword [] Nothing H).
Qed.

(** X13.  On the ASCII runtime a keyword made of characters without a
    meaning in patterns is searched as plain text: the keyword filter keeps
    exactly the rows whose name, a missing one read as nan, contains the
    keyword, letter case apart; on a frame without missing names these are
    the rows whose name contains the keyword. *)
Theorem plain_keyword_is_searched_as_text (keyword : string) (dff : ref)
    (w : world) :
  truthy keyword = true ->
  plain_keyword keyword = true ->
  exists l w',
    @filter_keyword ascii_runtime keyword dff w = (inr l, w') /\
    frame w' l
    = filter (fun r => is_substring (ascii_lower keyword)
                         (ascii_lower (str_of_nama (nama r))))
        (frame w dff) /\
    ((forall r, In r (frame w dff) -> nama r <> None) ->
     frame w' l = filter (contains_keyword keyword) (frame w dff)).
Proof.
  intros T P.
  pose proof (@filter_keyword_frame ascii_runtime keyword dff w) as H.
  unfold keep_keyword in H. rewrite T in H.
  change (@re_search_ignorecase ascii_runtime keyword)
    with (ascii_search keyword) in H.
  rewrite (ascii_search_plain keyword P) in H.
  destruct H as (l & w' & E & _ & F).
  exists l, w'. split; [exact E|].
  assert (F' : frame w' l
               = filter (fun r => is_substring (ascii_lower keyword)
                                    (ascii_lower (str_of_nama (nama r))))
                   (frame w dff)).
  { rewrite F. apply filter_ext. intros r.
    unfold name_matches, name_text, str_of_nama.
    destruct (nama r) as [v|]; apply search_literal. }
  split; [exact F'|].
  intros Hall. rewrite F'. apply filter_ext_in. intros r Hr.
  unfold contains_keyword, str_of_nama.
  destruct (nama r) as [v|] eqn:Ev; [reflexivity|].
  now elim (Hall r Hr).
Qed.

Lemma plain_keyword_is_searched_as_text_witness :
  exists l w',
    @filter_keyword ascii_runtime "BO" 0 sample_world = (inr l, w') /\
    frame w' l = [bogor].
Proof.
  destruct (plain_keyword_is_searched_as_text "BO" 0 sample_world eq_refl eq_refl)
    as (l & w' & E & F & _).
  exists l, w'. split; [exact E|]. rewrite F. reflexivity.
Defined.

(** ** The loaded table, column by column *)

(** X14.  Importing drops no row and moves no value of the table that
    [pd.read_csv] returned: when that table has columns of one length and
    the import succeeds, the global table has one row per row of it, its
    names are the values of the column nama in order, a missing one staying
    missing, and its latitudes, longitudes and populations are the values of
    their columns as [to_numeric] reads them, a missing or unreadable value
    being missing. *)
Theorem load_keeps_every_record {rt : Runtime} (file : option string)
    (csv : csv_table) (w : world) (n : nat) :
  read_csv file = inr csv ->
  Forall (fun c => List.length (snd c) = n) csv ->
  import_module file = inr w ->
  exists names lats lons pops,
    getcol csv "nama" = inr names /\ getcol csv "lat" = inr lats /\
    getcol csv "lon" = inr lons /\ getcol csv "populasi" = inr pops /\
    List.length (frame w (df w)) = n /\
    map nama (frame w (df w)) = names /\
    map lat (frame w (df w))
    = map (fun x => match x with Some v => to_numeric v | None => None end) lats /\
    map lon (frame w (df w))
    = map (fun x => match x with Some v => to_numeric v | None => None end) lons /\
    map populasi (frame w (df w))
    = map (fun x => match x with Some v => to_numeric v | None => None end) pops.
Proof.
  intros Hread Hrect Hload. unfold import_module in Hload.
  rewrite Hread in Hload. now apply load_table.
Qed.

Lemma load_keeps_every_record_witness :
  List.length (frame sample_world (df sample_world)) = 4%nat /\
  map nama (frame sample_world (df sample_world))
  = [Some "Bandung"; Some "Bogor"; Some "Cianjur"; Some "Garut"].
Proof.
  destruct (@load_keeps_every_record ascii_runtime (Some sample_file) sample_csv
              sample_world 4)
    as (names & lats & lons & pops & En & _ & _ & _ & H & Hn & _).
  - vm_compute. reflexivity.
  - repeat constructor.
  - vm_compute. reflexivity.
  - split; [exact H|]. rewrite Hn.
    vm_compute in En. now injection En as <-.
Defined.

(** ** What the template receives *)

(** X15.  Whenever the handler renders, it renders the template home.html;
    the form is filled again with the three texts exactly as they were sent,
    a rejected [min_pop] included; the dropdown gets the global list
    [NAMES]; and the count is the number of markers of the map. *)
Theorem template_receives_the_request_texts {rt : Runtime} (request : Request)
    (w : world) (template : string) (c : context) :
  fst (home request w) = inr (render_template template c) ->
  template = "home.html" /\
  ctx_min_pop c = form_get (form request) "min_pop" "" /\
  ctx_keyword c = form_get (form request) "keyword" "" /\
  ctx_selected_name c = form_get (form request) "name" "" /\
  ctx_names c = NAMES w /\
  ctx_result_count c = List.length (markers_of (ctx_map_html c)).
Proof.
  destruct (home_run request w) as (w' & _ & E). rewrite E.
  cbn [fst]. unfold page_of.
  destruct (kept _ _ _ _) as [e | t]; [discriminate|].
  pose proof (map_of_table_cases t) as Hc.
  destruct (map_of_table t) as [e | [h n]]; [discriminate|].
  destruct Hc as (Hn & _ & Hm). apply Forall2_length_eq in Hm.
  intros H. injection H as <- <-.
  cbn [ctx_min_pop ctx_keyword ctx_selected_name ctx_names ctx_result_count
       ctx_map_html].
  rewrite <- Hm, Hn. now repeat split.
Qed.

Lemma template_receives_the_request_texts_witness :
  exists c,
    fst (@home ascii_runtime (post "abc" "" "") sample_world)
    = inr (render_template "home.html" c) /\
    ctx_min_pop c = "abc".
Proof.
  destruct (fst (@home ascii_runtime (post "abc" "" "") sample_world))
    as [e | [template c]] eqn:E; [vm_compute in E; discriminate E|].
  destruct (@template_receives_the_request_texts ascii_runtime
              (post "abc" "" "") sample_world template c E) as (-> & Hm & _).
  exists c. split; [reflexivity|]. rewrite Hm. reflexivity.
Defined.
